(** * intern: incremental mailbox synchronisation and fan-out forwarding

    A shallow embedding of the Gmail bridge of the repository (the Express
    server with [extractEmailBodies], [stripHtml], [loadState]/[saveState],
    [forwardMessageById], [processHistorySince] and the two Pub/Sub push
    routes), followed by the properties its specification states.

    Conventions.
    - A JavaScript string is a Rocq [string] holding its UTF-8 bytes.  All
      patterns of the program start with an ASCII character or a white-space
      character, so matching on bytes and matching on characters agree on
      well-formed text.
    - [undefined] is [None]; a JSON value is a [jsval].
    - The state file is modelled by what reading and parsing it gives; when
      it parses, it holds a record, which is all [saveState] ever writes.
    - [await] is sequencing: every routine runs to completion before the next
      one starts (no two sync passes are interleaved here). *)

From stdpp Require Import base option list strings pretty gmap fin_maps.
From Stdlib Require Import Ascii ZArith Lia.

Local Open Scope Z_scope.
#[local] Set Warnings "-register-all".

(** ** Characters and white space *)

Definition byte_of (n : nat) : ascii := ascii_of_nat n.
Definition LF : ascii := byte_of 10.
Definition newline : string := String LF "".

Definition is_upper (c : ascii) : bool :=
  let n := nat_of_ascii c in (Nat.leb 65 n && Nat.leb n 90)%bool.

(* Canonicalize of the /i flag, on the ASCII letters the patterns contain *)
Definition fold_case (c : ascii) : ascii :=
  if is_upper c then ascii_of_nat (nat_of_ascii c + 32) else c.

Definition char_eqb_ci (a b : ascii) : bool :=
  Ascii.eqb (fold_case a) (fold_case b).

(* \t \n \v \f \r and the space *)
Definition is_ascii_space (c : ascii) : bool :=
  let n := nat_of_ascii c in
  ((Nat.leb 9 n && Nat.leb n 13) || Nat.eqb n 32)%bool.

(** ** Regular expressions: the fragment the program's patterns use *)

Inductive regex : Type :=
| Chr (p : ascii → bool)             (* one character of a class *)
| Eps                                (* the empty pattern *)
| Cat (r1 r2 : regex)                (* r1 r2 *)
| Alt (r1 r2 : regex)                (* r1|r2, left first *)
| Rep (greedy : bool) (r : regex)    (* r* when greedy, r*? otherwise *)
| Ahead (positive : bool) (r : regex). (* (?=r) and (?!r) *)

(* Backtracking matcher in continuation-passing style: [run r s k] matches [r]
   at the start of [s] and hands the rest to [k]; the first success in the
   priority order of the ECMAScript matcher wins.  An iteration of a star that
   consumes nothing is rejected, as the language requires. *)
Fixpoint run (r : regex) (s : string) (k : string → option string)
  {struct r} : option string :=
  match r with
  | Chr p =>
      match s with
      | String c t => if p c then k t else None
      | EmptyString => None
      end
  | Eps => k s
  | Cat a b => run a s (λ s1, run b s1 k)
  | Alt a b =>
      match run a s k with
      | Some x => Some x
      | None => run b s k
      end
  | Rep g a =>
      (fix loop (n : nat) (s : string) {struct n} : option string :=
         let more :=
           match n with
           | O => None
           | S n' =>
               run a s (λ s1,
                 if Nat.ltb (String.length s1) (String.length s)
                 then loop n' s1 else None)
           end in
         if g then
           match more with
           | Some x => Some x
           | None => k s
           end
         else
           match k s with
           | Some x => Some x
           | None => more
           end) (String.length s) s
  | Ahead pos a =>
      match run a s (λ _, Some s) with
      | Some _ => if pos then k s else None
      | None => if pos then None else k s
      end
  end.

(* The rest of the input after a match of [r] at the start of [s] *)
Definition match_prefix (r : regex) (s : string) : option string :=
  run r s Some.

Definition chr (c : ascii) : regex := Chr (Ascii.eqb c).
Definition chr_ci (c : ascii) : regex := Chr (char_eqb_ci c).
Definition any_char : regex := Chr (λ _, true).
Definition plus (r : regex) : regex := Cat r (Rep true r).
Definition opt (r : regex) : regex := Alt r Eps.

Fixpoint lit (s : string) : regex :=
  match s with
  | EmptyString => Eps
  | String c t => Cat (chr c) (lit t)
  end.

Fixpoint lit_ci (s : string) : regex :=
  match s with
  | EmptyString => Eps
  | String c t => Cat (chr_ci c) (lit_ci t)
  end.

Definition bytes3 (a b c : nat) : regex :=
  Cat (chr (byte_of a)) (Cat (chr (byte_of b)) (chr (byte_of c))).

(* \s : WhiteSpace and LineTerminator of ECMAScript, in UTF-8 *)
Definition ws : regex :=
  Alt (Chr is_ascii_space)
 (Alt (Cat (chr (byte_of 194)) (chr (byte_of 160)))            (* U+00A0 *)
 (Alt (bytes3 225 154 128)                                     (* U+1680 *)
 (Alt (Cat (chr (byte_of 226)) (Cat (chr (byte_of 128))
        (Chr (λ c, let n := nat_of_ascii c in
                   (Nat.leb 128 n && Nat.leb n 138                (* U+2000-200A *)
                    || Nat.eqb n 168 || Nat.eqb n 169 || Nat.eqb n 175)%bool))))
 (Alt (bytes3 226 129 159)                                     (* U+205F *)
 (Alt (bytes3 227 128 128)                                     (* U+3000 *)
      (bytes3 239 187 191)))))).                               (* U+FEFF *)

(* String.prototype.replace with a /g pattern and a constant replacement.
   [skip] counts the characters of the current match still to be dropped. *)
Fixpoint replace_from (r : regex) (by_ : string) (skip : nat) (s : string) : string :=
  match s with
  | EmptyString => EmptyString
  | String c t =>
      match skip with
      | S n => replace_from r by_ n t
      | O =>
          match match_prefix r s with
          | Some rest =>
              if Nat.ltb (String.length rest) (String.length s)
              then by_ +:+
                   replace_from r by_ (String.length s - String.length rest - 1) t
              else String c (replace_from r by_ O t)
          | None => String c (replace_from r by_ O t)
          end
      end
  end.

Definition replace_all (r : regex) (by_ : string) (s : string) : string :=
  replace_from r by_ O s.

(* String.prototype.trim *)
Fixpoint trim_start_fuel (n : nat) (s : string) : string :=
  match n with
  | O => s
  | S n' =>
      match match_prefix ws s with
      | Some rest => trim_start_fuel n' rest
      | None => s
      end
  end.

Definition trim_start (s : string) : string := trim_start_fuel (String.length s) s.

Definition all_space (s : string) : bool :=
  match trim_start s with EmptyString => true | _ => false end.

Fixpoint trim_end (s : string) : string :=
  match s with
  | EmptyString => EmptyString
  | String c t => if all_space s then EmptyString else String c (trim_end t)
  end.

Definition trim (s : string) : string := trim_end (trim_start s).

(** ** stripHtml *)

Definition re_style : regex :=
  Cat (lit_ci "<style") (Cat (Rep false any_char) (lit_ci "</style>")).
Definition re_script : regex :=
  Cat (lit_ci "<script") (Cat (Rep false any_char) (lit_ci "</script>")).
Definition re_br : regex :=
  Cat (lit_ci "<br") (Cat (Rep true ws) (Cat (opt (chr "/")) (chr ">"))).
Definition re_br_before_tag : regex :=
  Cat re_br (Ahead true (Cat (Rep true ws) (chr "<"))).
Definition re_br_no_newline : regex :=
  Cat re_br (Ahead false (chr LF)).
Definition re_block_close : regex :=
  Cat (lit_ci "</")
    (Cat (Alt (lit_ci "p")
         (Alt (lit_ci "div")
         (Alt (Cat (chr_ci "h")
                   (Chr (λ c, let n := nat_of_ascii c in
                              (Nat.leb 49 n && Nat.leb n 54)%bool)))
              (lit_ci "li"))))
         (chr ">")).
Definition re_li : regex := lit_ci "<li>".
Definition re_tag : regex :=
  Cat (chr "<") (Cat (plus (Chr (λ c, negb (Ascii.eqb c ">")))) (chr ">")).
Definition re_space_newline : regex := Cat (plus ws) (chr LF).
Definition re_newlines3 : regex :=
  Cat (chr LF) (Cat (chr LF) (Cat (chr LF) (Rep true (chr LF)))).
Definition re_spaces2 : regex := Cat ws (Cat ws (Rep true ws)).

(* the replacement of <li>, as the source file writes it *)
Definition bullet : string := " â€¢ ".

Definition stripHtml (html : string) : string :=
  match html with
  | EmptyString => EmptyString
  | _ =>
      let s := replace_all re_style "" html in
      let s := replace_all re_script "" s in
      let s := replace_all re_br_before_tag newline s in
      let s := replace_all re_br_no_newline newline s in
      let s := replace_all re_block_close newline s in
      let s := replace_all re_li bullet s in
      let s := replace_all re_tag " " s in
      let s := replace_all (lit_ci "&nbsp;") " " s in
      let s := replace_all (lit_ci "&amp;") "&" s in
      let s := replace_all (lit_ci "&lt;") "<" s in
      let s := replace_all (lit_ci "&gt;") ">" s in
      let s := replace_all (lit_ci "&#39;") "'" s in
      let s := replace_all (lit_ci "&quot;") (String (byte_of 34) "") s in
      let s := replace_all re_space_newline newline s in
      let s := replace_all re_newlines3 (newline +:+ newline) s in
      let s := replace_all re_spaces2 " " s in
      trim s
  end.

(** ** JavaScript values *)

(* What JSON carries.  Numbers are the integers it carries exactly. *)
Inductive jsval : Type :=
| JNull
| JBool (b : bool)
| JNum (n : Z)
| JStr (s : string)
| JArr (l : list jsval)
| JObj (o : gmap string jsval).

(* ToBoolean *)
Definition truthy_str (s : string) : bool :=
  match s with EmptyString => false | _ => true end.

Definition truthy (v : jsval) : bool :=
  match v with
  | JNull => false
  | JBool b => b
  | JNum n => negb (n =? 0)
  | JStr s => truthy_str s
  | JArr _ | JObj _ => true
  end.

(* ToBoolean of a value that may be undefined *)
Definition truthy_opt {A} (t : A → bool) (o : option A) : bool :=
  match o with Some a => t a | None => false end.

(* a || b *)
Definition js_or {A} (t : A → bool) (a b : option A) : option A :=
  if truthy_opt t a then a else b.

(** ** The reference base64 decoder

    [Buffer.from(s, "base64").toString("utf-8")] is the platform's.  The
    development is parametric in it; this decoder of RFC 4648 text is the
    instance the worked examples run on. *)

Definition sextet (c : ascii) : option N :=
  let n := N_of_ascii c in
  if ((65 <=? n) && (n <=? 90))%N then Some (n - 65)%N
  else if ((97 <=? n) && (n <=? 122))%N then Some (n - 71)%N
  else if ((48 <=? n) && (n <=? 57))%N then Some (n + 4)%N
  else if (n =? 43)%N then Some 62%N
  else if (n =? 47)%N then Some 63%N
  else None.

Fixpoint sextets (s : string) : option (list N) :=
  match s with
  | EmptyString => Some []
  | String c t =>
      if Ascii.eqb c "=" then Some []
      else match sextet c, sextets t with
           | Some v, Some vs => Some (v :: vs)
           | _, _ => None
           end
  end.

Definition octet (n : N) : ascii := ascii_of_N (n mod 256).

Fixpoint octets (l : list N) : string :=
  match l with
  | a :: b :: c :: d :: rest =>
      let w := (a * 262144 + b * 4096 + c * 64 + d)%N in
      String (octet (w / 65536)) (String (octet (w / 256))
        (String (octet w) (octets rest)))
  | [a; b; c] =>
      let w := (a * 4096 + b * 64 + c)%N in
      String (octet (w / 1024)) (String (octet (w / 4)) EmptyString)
  | [a; b] => String (octet ((a * 64 + b) / 16)) EmptyString
  | _ => EmptyString
  end.

Definition base64_decode (s : string) : option string :=
  octets <$> sextets s.

(** ** Gmail resources, as the API client returns them *)

Module Gmail.

Record MessagePartBody : Type := { data : option string }.

Record MessagePartHeader : Type := { name : option string; value : option string }.

Inductive MessagePart : Type :=
| Part (mimeType : option string) (body : option MessagePartBody)
       (headers : option (list MessagePartHeader))
       (parts : option (list MessagePart)).

Definition mimeType (p : MessagePart) : option string :=
  match p with Part m _ _ _ => m end.
Definition body (p : MessagePart) : option MessagePartBody :=
  match p with Part _ b _ _ => b end.
Definition headers (p : MessagePart) : option (list MessagePartHeader) :=
  match p with Part _ _ h _ => h end.
Definition parts (p : MessagePart) : option (list MessagePart) :=
  match p with Part _ _ _ ps => ps end.

Record Message : Type := { id : option string; payload : option MessagePart }.

Record HistoryMessageAdded : Type := { message : option Message }.

Record History : Type :=
  { history_id : option string;                       (* h.id *)
    messagesAdded : option (list HistoryMessageAdded) }.

Record ListHistoryResponse : Type :=
  { history : option (list History); nextPageToken : option string }.

End Gmail.

(* part.body?.data *)
Definition body_data (p : Gmail.MessagePart) : option string :=
  match Gmail.body p with Some b => Gmail.data b | None => None end.

(* part.mimeType === m *)
Definition mime_is (m : string) (p : Gmail.MessagePart) : bool :=
  match Gmail.mimeType p with Some m' => String.eqb m' m | None => false end.

(** ** The world the server acts on *)

(* A rejected promise or a thrown error: err.response?.status and err.message *)
Record exn : Type := { status : option Z; message : string }.

Record EmailData : Type :=
  { from : option string;
    to : option string;
    subject : option string;
    body : string;
    textBody : option string;
    htmlBody : option string }.

(* The JSON bodies the server posts with axios *)
Inductive post_body : Type :=
| PostEmail (emailData : EmailData)
| PostSession (sessionId : string)
| PostQuery (prompt : string) (stream : bool).

Inductive log_level : Type := Log | Warn | Error.

(* What the server does to the outside, in order *)
Inductive event : Type :=
| Respond (code : Z)                                      (* res.status(code).end() *)
| HistoryList (startHistoryId : string) (pageToken : option string)
| MessagesGet (id : string)
| SseFrame (client : nat) (ev : string) (source : string) (id : string)
           (emailData : EmailData)
| AxiosPost (url : string) (payload : post_body)
| Console (level : log_level) (what : string) (detail : string).

(* gmail_state.json, by what reading and parsing it gives.  The file is only
   ever written by [saveState], which serialises a record. *)
Inductive backing_store : Type :=
| FileAbsent                                   (* readFileSync throws: no such file *)
| FileUnreadable                               (* readFileSync throws otherwise *)
| FileCorrupt (raw : string)                   (* JSON.parse throws on the text *)
| FileRecord (o : gmap string jsval).          (* JSON.parse gives the record *)

Record World : Type := { store : backing_store; trace : list event }.

(* One attached /events subscriber; [accepts] tells whether res.write returns *)
Record SseClient : Type := { client : nat; accepts : bool }.

(* Configuration and the behaviour of the collaborators during one routine *)
Record Env : Type :=
  { NGROK_ENDPOINT : option string;
    OUTBOUND_POST_URL : option string;
    CONTAINER_SESSION_ID : string;
    sseClients : list SseClient;
    messages_get : string → exn + Gmail.Message;    (* gmail.users.messages.get *)
    axios_post : string → post_body → option exn;  (* Some e: the post rejects *)
    writeFileSync : option exn }.                  (* Some e: the write throws *)

(* The answers of gmail.users.history.list to the successive calls of one
   pass: a finite script, so a remote that hands out page tokens for ever is
   not considered.  The answer after a page without a token is never asked for. *)
Inductive changelog : Type :=
| Rejects (e : exn)
| Resolves (resp : Gmail.ListHistoryResponse) (next : changelog).

(** ** Routines: state and exceptions *)

Definition M (A : Type) : Type := World → (exn + A) * World.

#[export] Instance M_ret : MRet M := λ A a w, (inr a, w).
#[export] Instance M_bind : MBind M := λ A B f m w,
  match m w with
  | (inr a, w') => f a w'
  | (inl e, w') => (inl e, w')
  end.

Definition throw {A} (e : exn) : M A := λ w, (inl e, w).

(* try { m } catch (e) { h e } *)
Definition try_catch {A} (m : M A) (h : exn → M A) : M A := λ w,
  match m w with
  | (inr a, w') => (inr a, w')
  | (inl e, w') => h e w'
  end.

Definition emit (e : event) : M unit := λ w,
  (inr tt, {| store := store w; trace := trace w ++ [e] |}).

Definition liftE {A} (r : exn + A) : M A := λ w, (r, w).

Definition when (b : bool) (m : M unit) : M unit := if b then m else mret tt.

(* e.response?.status || e.message, as the console prints it *)
Definition status_or_message (e : exn) : string :=
  match status e with
  | Some n => if n =? 0 then message e else pretty n
  | None => message e
  end.

(** ** Positions in the change log *)

(* String(v), integers in decimal *)
Fixpoint to_String (v : jsval) : string :=
  match v with
  | JNull => "null"
  | JBool true => "true"
  | JBool false => "false"
  | JNum n => pretty n
  | JStr s => s
  | JArr l =>
      String.concat ","
        (map (λ x, match x with JNull => "" | _ => to_String x end) l)
  | JObj _ => "[object Object]"
  end.

Definition to_String_opt (v : option jsval) : string :=
  match v with Some v => to_String v | None => "undefined" end.

Definition is_digit (c : ascii) : bool :=
  let n := nat_of_ascii c in (Nat.leb 48 n && Nat.leb n 57)%bool.

Fixpoint digits_value (acc : Z) (s : string) : option Z :=
  match s with
  | EmptyString => Some acc
  | String c t =>
      if is_digit c
      then digits_value (10 * acc + Z.of_nat (nat_of_ascii c - 48)) t
      else None
  end.

(* The number a position denotes: a JSON number, or a string of decimal digits *)
Definition numeric (v : jsval) : option Z :=
  match v with
  | JNum n => Some n
  | JStr (String c t) => digits_value 0 (String c t)
  | _ => None
  end.

(* a <= b as positions, decided *)
Definition position_leb (a b : jsval) : bool :=
  match numeric a, numeric b with
  | Some x, Some y => x <=? y
  | _, _ => false
  end.

(* The persisted cursor never moved back from [a] to [b]: it is unchanged, or
   there was none, or both are numbers in order *)
Definition cursor_le (a b : option jsval) : Prop :=
  a = b ∨ a = None ∨
  ∃ x y, a = Some x ∧ b = Some y ∧ position_leb x y = true.

(* Insertion-ordered Set.prototype.add on message identifiers *)
Definition set_add (x : string) (s : list string) : list string :=
  if bool_decide (x ∈ s) then s else s ++ [x].

(* One sync pass of a sequence: its collaborators, the answers of the change
   log, and the position it is started from *)
Record pass : Type :=
  { pass_env : Env; pass_remote : changelog; pass_start : option jsval }.

(** ** Payload shapes *)

(* A part without children *)
Definition leaf (m d : string) : Gmail.MessagePart :=
  Gmail.Part (Some m) (Some {| Gmail.data := Some d |}) None None.

(* A message whose only part is HTML, under any headers *)
Definition html_only (hs : option (list Gmail.MessagePartHeader)) (d : string)
  : Gmail.MessagePart :=
  Gmail.Part (Some "text/html") (Some {| Gmail.data := Some d |}) hs None.

(** ** Worked inputs *)

Definition not_found : exn := {| status := Some 404; message := "Not Found" |}.
Definition server_error : exn :=
  {| status := Some 500; message := "Request failed with status code 500" |}.

(* A page that ends the paging, and the answer to a call that is never made *)
Definition final (resp : Gmail.ListHistoryResponse) : changelog :=
  Resolves resp (Rejects not_found).

Definition change (i : string) (added : list string) : Gmail.History :=
  {| Gmail.history_id := Some i;
     Gmail.messagesAdded :=
       Some ((λ m, {| Gmail.message :=
                        Some {| Gmail.id := Some m; Gmail.payload := None |} |})
             <$> added) |}.

Definition page (hs : list Gmail.History) (tok : option string)
  : Gmail.ListHistoryResponse :=
  {| Gmail.history := Some hs; Gmail.nextPageToken := tok |}.

(* "Hello" as text/plain, with the usual headers *)
Definition hello : Gmail.Message :=
  {| Gmail.id := Some "m1";
     Gmail.payload :=
       Some (Gmail.Part (Some "text/plain")
               (Some {| Gmail.data := Some "SGVsbG8=" |})
               (Some [ {| Gmail.name := Some "From"; Gmail.value := Some "ann@example.com" |};
                       {| Gmail.name := Some "Subject"; Gmail.value := Some "Greeting" |};
                       {| Gmail.name := Some "To"; Gmail.value := Some "bob@example.com" |} ])
               None) |}.

(* <p>Hi</p> as the only part *)
Definition hi_html : Gmail.Message :=
  {| Gmail.id := Some "m3";
     Gmail.payload := Some (html_only None "PHA-SGk8L3A-") |}.

(* The mailbox resolves m1 and m3; fetching any other message rejects *)
Definition mailbox (i : string) : exn + Gmail.Message :=
  if String.eqb i "m1" then inr hello
  else if String.eqb i "m3" then inr hi_html
  else inl not_found.

Definition legacy_url : string := "http://legacy.example/hook".
Definition agent_url : string := "http://agent.example/".

(* Every collaborator answers *)
Definition healthy : Env :=
  {| NGROK_ENDPOINT := Some legacy_url;
     OUTBOUND_POST_URL := Some agent_url;
     CONTAINER_SESSION_ID := "intern-0a1b2c3d";
     sseClients := [ {| client := 1; accepts := true |} ];
     messages_get := mailbox;
     axios_post := λ _ _, None;
     writeFileSync := None |}.

(* The legacy webhook answers 500; the agent API is up *)
Definition legacy_down : Env :=
  {| NGROK_ENDPOINT := Some legacy_url;
     OUTBOUND_POST_URL := Some agent_url;
     CONTAINER_SESSION_ID := "intern-0a1b2c3d";
     sseClients := [ {| client := 1; accepts := true |} ];
     messages_get := mailbox;
     axios_post := λ url _, if String.eqb url legacy_url then Some server_error else None;
     writeFileSync := None |}.

(* The disk refuses writes *)
Definition disk_full : Env :=
  {| NGROK_ENDPOINT := None;
     OUTBOUND_POST_URL := None;
     CONTAINER_SESSION_ID := "intern-0a1b2c3d";
     sseClients := [];
     messages_get := mailbox;
     axios_post := λ _ _, None;
     writeFileSync := Some {| status := None; message := "ENOSPC" |} |}.

(* A store with a cursor and an unrelated field *)
Definition at_10 : World :=
  {| store := FileRecord (<["historyId" := JStr "10"]>
                            {[ "emailAddress" := JStr "bob@example.com" ]});
     trace := [] |}.

Definition at_5 : World :=
  {| store := FileRecord {[ "historyId" := JStr "5" ]}; trace := [] |}.

Definition corrupt : World :=
  {| store := FileCorrupt "{ historyId: "; trace := [] |}.

(* Two pages that reference m1 three times and m2 once *)
Definition two_pages : changelog :=
  Resolves (page [change "11" ["m1"; "m2"]; change "12" ["m1"]] (Some "next"))
    (final (page [change "13" ["m1"]] None)).

(* A page whose events are out of order, and one below the start position *)
Definition out_of_order : changelog :=
  final (page [change "7" []; change "3" []] None).

Definition stale : changelog := final (page [change "3" []] None).

Definition nothing_new : changelog := final (page [] None).

(* A container with inline data of its own and two plain-text parts:
   "R", then "A" and "B" *)
Definition container_with_data : Gmail.MessagePart :=
  Gmail.Part (Some "multipart/mixed") (Some {| Gmail.data := Some "Ug==" |}) None
    (Some [leaf "text/plain" "QQ=="; leaf "text/plain" "Qg=="]).

(* Two plain-text parts " A " and "B" below an HTML part *)
Definition alternative : Gmail.MessagePart :=
  Gmail.Part (Some "multipart/alternative") None None
    (Some [ Gmail.Part (Some "multipart/related") None None
              (Some [leaf "text/html" "PGI-SGk8L2I-"; leaf "text/plain" "IEEg"]);
            leaf "text/plain" "Qg==" ]).

(* An empty first plain-text part, then "B" *)
Definition empty_first : Gmail.MessagePart :=
  Gmail.Part (Some "multipart/mixed") None None
    (Some [leaf "text/plain" "===="; leaf "text/plain" "Qg=="]).

(* encodeURIComponent on session identifiers, which consist of unreserved
   characters *)
Definition unreserved (s : string) : string := s.

Definition hello_email : EmailData :=
  {| from := Some "ann@example.com";
     to := Some "bob@example.com";
     subject := Some "Greeting";
     body := "Hello";
     textBody := Some "Hello";
     htmlBody := None |}.

Definition hi_email : EmailData :=
  {| from := None; to := None; subject := None;
     body := "Hi"; textBody := None; htmlBody := Some "<p>Hi</p>" |}.

Definition agent_query_url : string :=
  "http://agent.example/singleton/agent/intern-0a1b2c3d/query".

Definition from_10 (env : Env) (remote : changelog) : pass :=
  {| pass_env := env; pass_remote := remote; pass_start := Some (JStr "10") |}.

(** ** The answer of gmail.users.watch *)

Record WatchResponse : Type :=
  { watch_historyId : option jsval;       (* data.historyId *)
    expiration : option string }.

(** ** More worked inputs *)

Definition conflict : exn :=
  {| status := Some 409; message := "Request failed with status code 409" |}.
Definition unavailable : exn :=
  {| status := Some 503; message := "Request failed with status code 503" |}.

Definition agent_create_url : string := "http://agent.example/singleton/agent/create".

(* The container already holds the session: creating it answers 409 *)
Definition session_exists : Env :=
  {| NGROK_ENDPOINT := None;
     OUTBOUND_POST_URL := Some agent_url;
     CONTAINER_SESSION_ID := "intern-0a1b2c3d";
     sseClients := [];
     messages_get := mailbox;
     axios_post := λ url _, if String.eqb url agent_create_url then Some conflict else None;
     writeFileSync := None |}.

(* The agent API answers 503 to everything; one of two subscribers is gone *)
Definition agent_down : Env :=
  {| NGROK_ENDPOINT := Some legacy_url;
     OUTBOUND_POST_URL := Some agent_url;
     CONTAINER_SESSION_ID := "intern-0a1b2c3d";
     sseClients := [ {| client := 1; accepts := false |};
                     {| client := 2; accepts := true |} ];
     messages_get := mailbox;
     axios_post := λ url _, if String.eqb url legacy_url then None else Some unavailable;
     writeFileSync := None |}.

(* The second list call rejects *)
Definition second_page_fails : changelog :=
  Resolves (page [change "11" ["m1"]] (Some "next")) (Rejects server_error).

(* A message that consists of one attachment stored apart *)
Definition attachment_only : Gmail.MessagePart :=
  Gmail.Part (Some "multipart/mixed") None None
    (Some [Gmail.Part (Some "application/pdf") (Some {| Gmail.data := None |})
             None None]).

Definition watch_42 : WatchResponse :=
  {| watch_historyId := Some (JStr "42"); expiration := Some "1700000000000" |}.

Section Bridge.

(* Buffer.from(s, "base64").toString("utf-8"); [None] when it throws *)
Variable Buffer_base64_utf8 : string → option string.
(* encodeURIComponent *)
Variable encodeURIComponent : string → string.

(** ** Helpers to extract readable email text from a Gmail payload *)

Definition decodeBase64UrlToUtf8 (data : string) : string :=
  match data with
  | EmptyString => EmptyString
  | _ =>
      let base64 := replace_all (chr "_") "/" (replace_all (chr "-") "+" data) in
      match Buffer_base64_utf8 base64 with
      | Some s => s
      | None => EmptyString
      end
  end.

Record Bodies : Type := { text : string; html : string }.

(* One call of [walk], the recursion into part.parts excluded *)
Definition visit (part : Gmail.MessagePart) (acc : Bodies) : Bodies :=
  let acc :=
    match body_data part with
    | Some d =>
        if (mime_is "text/plain" part && truthy_str d
            && negb (truthy_str (text acc)))%bool
        then {| text := decodeBase64UrlToUtf8 d; html := html acc |}
        else acc
    | None => acc
    end in
  match body_data part with
  | Some d =>
      if (mime_is "text/html" part && truthy_str d
          && negb (truthy_str (html acc)))%bool
      then {| text := text acc; html := decodeBase64UrlToUtf8 d |}
      else acc
  | None => acc
  end.

Fixpoint walk (part : Gmail.MessagePart) (acc : Bodies) {struct part} : Bodies :=
  let acc := visit part acc in
  match part with
  | Gmail.Part _ _ _ (Some ps) => fold_left (λ acc q, walk q acc) ps acc
  | Gmail.Part _ _ _ None => acc
  end.

(* The block that handles data on the top-level body *)
Definition top_level (payload : option Gmail.MessagePart) : Bodies :=
  let empty := {| text := ""; html := "" |} in
  match payload with
  | Some p =>
      match body_data p with
      | Some d =>
          if truthy_str d then
            let decoded := decodeBase64UrlToUtf8 d in
            if mime_is "text/plain" p then {| text := decoded; html := "" |}
            else if mime_is "text/html" p then {| text := ""; html := decoded |}
            else {| text := decoded; html := "" |}
          else empty
      | None => empty
      end
  | None => empty
  end.

Definition extractEmailBodies (payload : option Gmail.MessagePart) : Bodies :=
  let acc := top_level payload in
  let acc := match payload with Some p => walk p acc | None => acc end in
  {| text := trim (text acc); html := trim (html acc) |}.

(** ** Persistence for the Gmail history cursor *)

(* JSON.parse(fs.readFileSync(STATE_FILE, "utf-8")) *)
Definition read_state_file : M (gmap string jsval) := λ w,
  match store w with
  | FileAbsent => (inl {| status := None; message := "ENOENT" |}, w)
  | FileUnreadable => (inl {| status := None; message := "EACCES" |}, w)
  | FileCorrupt _ => (inl {| status := None; message := "SyntaxError" |}, w)
  | FileRecord o => (inr o, w)
  end.

Definition loadState : M (gmap string jsval) :=
  try_catch read_state_file (λ _, mret ∅).

(* fs.writeFileSync(STATE_FILE, JSON.stringify(obj, null, 2)) *)
Definition write_state_file (env : Env) (obj : gmap string jsval) : M unit := λ w,
  match writeFileSync env with
  | Some e => (inl e, w)
  | None => (inr tt, {| store := FileRecord obj; trace := trace w |})
  end.

Definition saveState (env : Env) (obj : gmap string jsval) : M unit :=
  try_catch (write_state_file env obj)
    (λ e, emit (Console Error "Failed to save state:" (message e))).

(** ** The server-sent events hub *)

Fixpoint sseBroadcast (clients : list SseClient) (ev source id : string)
    (emailData : EmailData) : M unit :=
  match clients with
  | [] => mret tt
  | res :: rest =>
      try_catch
        (if accepts res
         then emit (SseFrame (client res) ev source id emailData)
         else throw {| status := None; message := "write after end" |})
        (λ _, mret tt);;
      sseBroadcast rest ev source id emailData
  end.

(** ** Container API integration *)

Definition CONTAINER_CREATE_PATH : string := "/singleton/agent/create".
Definition CONTAINER_QUERY_BASE : string := "/singleton/agent".

(* base.replace(/\/$/, "") *)
Fixpoint strip_trailing_slash (s : string) : string :=
  match s with
  | EmptyString => EmptyString
  | String c EmptyString => if Ascii.eqb c "/" then EmptyString else s
  | String c t => String c (strip_trailing_slash t)
  end.

Definition post (env : Env) (url : string) (payload : post_body) : M unit :=
  emit (AxiosPost url payload);;
  match axios_post env url payload with
  | Some e => throw e
  | None => mret tt
  end.

Definition ensureContainerSession (env : Env) : M unit :=
  match OUTBOUND_POST_URL env with
  | Some base =>
      if truthy_str base then
        try_catch
          (post env (strip_trailing_slash base +:+ CONTAINER_CREATE_PATH)
                (PostSession (CONTAINER_SESSION_ID env));;
           emit (Console Log "Container session created:" (CONTAINER_SESSION_ID env)))
          (λ err,
             if bool_decide (status err = Some 409)
             then emit (Console Log "Container session exists:"
                          (CONTAINER_SESSION_ID env))
             else emit (Console Warn "Container session create failed:"
                          (status_or_message err)))
      else mret tt
  | None => mret tt
  end.

Definition or_empty (o : option string) : string :=
  match o with Some s => s | None => "" end.

Definition buildEmailPrompt (data : EmailData) : string :=
  let from_ := or_empty (from data) in
  let to_ := or_empty (to data) in
  let subject_ := or_empty (subject data) in
  let body_ :=
    if truthy_opt truthy_str (textBody data) then or_empty (textBody data)
    else body data in
  trim ("From: " +:+ from_ +:+ newline +:+ "To: " +:+ to_ +:+ newline +:+
        "Subject: " +:+ subject_ +:+ newline +:+ newline +:+ body_).

Definition postEmailToContainerAPI (env : Env) (emailData : EmailData) : M unit :=
  match OUTBOUND_POST_URL env with
  | Some base =>
      if truthy_str base then
        ensureContainerSession env;;
        let url := strip_trailing_slash base +:+ CONTAINER_QUERY_BASE +:+ "/" +:+
                   encodeURIComponent (CONTAINER_SESSION_ID env) +:+ "/query" in
        let payload := PostQuery (buildEmailPrompt emailData) false in
        try_catch
          (post env url payload;;
           emit (Console Log "Posted email to Container API session"
                   (CONTAINER_SESSION_ID env)))
          (λ err, emit (Console Warn "Container query failed:"
                          (status_or_message err)))
      else mret tt
  | None => mret tt
  end.

(** ** Forwarding one message *)

(* headers.find((h) => h.name === n)?.value *)
Definition header_value (n : string) (hs : list Gmail.MessagePartHeader)
  : option string :=
  match List.find (λ h, bool_decide (Gmail.name h = Some n)) hs with
  | Some h => Gmail.value h
  | None => None
  end.

(* text || (html ? stripHtml(html) : "(no text found)") *)
Definition body_of (b : Bodies) : string :=
  if truthy_str (text b) then text b
  else if truthy_str (html b) then stripHtml (html b)
  else "(no text found)".

(* s || undefined *)
Definition or_undefined (s : string) : option string :=
  if truthy_str s then Some s else None.

Definition make_emailData (payload : Gmail.MessagePart) (b : Bodies) : EmailData :=
  let hs := match Gmail.headers payload with Some hs => hs | None => [] end in
  {| from := header_value "From" hs;
     to := js_or truthy_str (header_value "To" hs) (header_value "Delivered-To" hs);
     subject := header_value "Subject" hs;
     body := body_of b;
     textBody := or_undefined (text b);
     htmlBody := or_undefined (html b) |}.

Definition forwardMessageById (env : Env) (messageId : string) : M EmailData :=
  emit (MessagesGet messageId);;
  msg ← liftE (messages_get env messageId);
  let b := extractEmailBodies (Gmail.payload msg) in
  match Gmail.payload msg with
  | None =>
      throw {| status := None;
               message := "Cannot read properties of undefined (reading 'headers')" |}
  | Some payload =>
      let emailData := make_emailData payload b in
      (* broadcast to frontend *)
      try_catch (sseBroadcast (sseClients env) "email" "push" messageId emailData)
                (λ _, mret tt);;
      (* also forward to the legacy endpoint if configured *)
      when (truthy_opt truthy_str (NGROK_ENDPOINT env))
           (post env (or_empty (NGROK_ENDPOINT env)) (PostEmail emailData));;
      (* send to the Container API *)
      postEmailToContainerAPI env emailData;;
      mret emailData
  end.

(** ** One sync pass *)

(* m?.message?.id *)
Definition added_message_id (m : Gmail.HistoryMessageAdded) : option string :=
  match Gmail.message m with Some msg => Gmail.id msg | None => None end.

(* The inner forEach: fold the "message added" sub-events into the set *)
Definition fold_added (ms : list Gmail.HistoryMessageAdded) (added : list string)
  : list string :=
  fold_left
    (λ added m,
       match added_message_id m with
       | Some i => if truthy_str i then set_add i added else added
       | None => added
       end) ms added.

(* The outer forEach over one page of history records *)
Definition fold_history (hs : list Gmail.History)
    (acc : option jsval * list string) : option jsval * list string :=
  fold_left
    (λ '(latestHistoryId, added) h,
       (js_or truthy (JStr <$> Gmail.history_id h) latestHistoryId,
        fold_added (default [] (Gmail.messagesAdded h)) added))
    hs acc.

(* The do-while loop over the pages *)
Fixpoint list_pages (startHistoryId : option jsval) (remote : changelog)
    (pageToken : option string) (acc : option jsval * list string)
  : M (option jsval * list string) :=
  emit (HistoryList (to_String_opt startHistoryId) pageToken);;
  match remote with
  | Rejects e => throw e
  | Resolves resp next =>
      let acc := fold_history (default [] (Gmail.history resp)) acc in
      if truthy_opt truthy_str (Gmail.nextPageToken resp)
      then list_pages startHistoryId next (Gmail.nextPageToken resp) acc
      else mret acc
  end.

(* for (const id of added) try { await forwardMessageById(id) } catch ... *)
Fixpoint forward_all (env : Env) (added : list string) : M unit :=
  match added with
  | [] => mret tt
  | i :: rest =>
      try_catch (forwardMessageById env i;; mret tt)
        (λ e, emit (Console Error "Forward failed for"
                      (i +:+ " " +:+ status_or_message e)));;
      forward_all env rest
  end.

Record SyncResult : Type := { count : nat; latestHistoryId : option jsval }.

Definition persist_cursor (env : Env) (latestHistoryId : option jsval) : M unit :=
  match latestHistoryId with
  | Some v =>
      if truthy v then
        state ← loadState;
        saveState env (<["historyId" := v]> state)
      else mret tt
  | None => mret tt
  end.

Definition processHistorySince (env : Env) (remote : changelog)
    (startHistoryId : option jsval) : M SyncResult :=
  '(latestHistoryId, added) ← list_pages startHistoryId remote None (startHistoryId, []);
  forward_all env added;;
  persist_cursor env latestHistoryId;;
  mret {| count := length added; latestHistoryId := latestHistoryId |}.

(** ** The Pub/Sub push routes *)

(* The request body, by what decoding it gives *)
Inductive push_body : Type :=
| NoMessageData                         (* req.body?.message?.data is falsy *)
| Undecodable (e : exn)                 (* decoding it or reading the field throws *)
| Notification (historyId : option jsval).  (* data.historyId of the inner JSON *)

(* state.historyId || historyId *)
Definition start_position (state : gmap string jsval) (historyId : option jsval)
  : option jsval :=
  js_or truthy (state !! "historyId") historyId.

Definition push_route (route : string) (env : Env) (remote : changelog)
    (req : push_body) : M unit :=
  (* acknowledge immediately to avoid retries *)
  emit (Respond 204);;
  try_catch
    (match req with
     | NoMessageData => mret tt
     | Undecodable e => throw e
     | Notification historyId =>
         if truthy_opt truthy historyId then
           state ← loadState;
           let start := start_position state historyId in
           processHistorySince env remote start;; mret tt
         else mret tt
     end)
    (λ e, emit (Console Error (route +:+ " handler error:") (message e))).

Definition gmail_push : Env → changelog → push_body → M unit :=
  push_route "/gmail/push".
Definition gmail_notify : Env → changelog → push_body → M unit :=
  push_route "/gmail-notify".

(** ** The manual fetch and the watch routes *)

(* What a route sends back; sending it is the last thing the route does *)
Inductive reply : Type :=
| Send (code : Z) (text : string)           (* res.status(code).send(text) *)
| SendJson (code : Z) (data : WatchResponse).   (* res.json(data) *)





(* app.post("/watch/start").  [watch] is the answer of gmail.users.watch with
   its data; the call leaves no event, and an error carries no response data. *)
Definition watch_start (connected : bool) (GMAIL_TOPIC : option string)
    (watch : exn + WatchResponse) (env : Env) : M reply :=
  if negb connected then mret (Send 400 "Not connected yet.")
  else if negb (truthy_opt truthy_str GMAIL_TOPIC)
  then mret (Send 400 "Set GMAIL_TOPIC in .env")
  else
    try_catch
      (watchResp ← liftE watch;
       state ← loadState;
       let state :=
         match watch_historyId watchResp with
         | Some v => if truthy v then <["historyId" := v]> state else state
         | None => state
         end in
       saveState env state;;
       mret (SendJson 200 watchResp))
      (λ e,
         emit (Console Error "watch/start error:" (message e));;
         mret (Send 500 "Failed to start watch")).

(** ** The dashboard's escaping *)

(* (s||'').replace(/&/g,'&amp;').replace(/</g,'&lt;')... *)
Definition escapeHtml (s : option string) : string :=
  let s := or_empty s in
  let s := replace_all (chr "&") "&amp;" s in
  let s := replace_all (chr "<") "&lt;" s in
  let s := replace_all (chr ">") "&gt;" s in
  let s := replace_all (chr (byte_of 34)) "&quot;" s in
  replace_all (chr "'") "&#39;" s.

(* The dashboard's own degradation of HTML: the same patterns as [stripHtml],
   without the entities *)
Definition bullet_client : string := " • ".

Definition stripHtmlClient (html : option string) : string :=
  let s := or_empty html in
  let s := replace_all re_style "" s in
  let s := replace_all re_script "" s in
  let s := replace_all re_br_before_tag newline s in
  let s := replace_all re_br_no_newline newline s in
  let s := replace_all re_block_close newline s in
  let s := replace_all re_li bullet_client s in
  let s := replace_all re_tag " " s in
  let s := replace_all re_space_newline newline s in
  let s := replace_all re_newlines3 (newline +:+ newline) s in
  let s := replace_all re_spaces2 " " s in
  trim s.

(** ** Reading a run *)

(* The record [loadState] finds in the store *)
Definition stored_state (s : backing_store) : gmap string jsval :=
  match s with
  | FileRecord o => o
  | _ => ∅
  end.

(* The persisted cursor *)
Definition cursor (w : World) : option jsval :=
  stored_state (store w) !! "historyId".

(* What happened between two worlds of one run *)
Definition events_since (w w' : World) : list event :=
  drop (length (trace w)) (trace w').

(* The identifiers [forwardMessageById] was called on: each call starts with
   the fetch of its message *)
Definition forward_calls (t : list event) : list string :=
  omap (λ e, match e with MessagesGet i => Some i | _ => None end) t.

(* The message a sink is handed *)
Definition forwarded_email (e : event) : option EmailData :=
  match e with
  | SseFrame _ _ _ _ emailData => Some emailData
  | AxiosPost _ (PostEmail emailData) => Some emailData
  | _ => None
  end.

Definition is_MessagesGet (e : event) : Prop :=
  match e with MessagesGet _ => True | _ => False end.

(* The pages one pass reads, and whether all its list calls resolve *)
Fixpoint pages_read (remote : changelog) : list Gmail.ListHistoryResponse :=
  match remote with
  | Rejects _ => []
  | Resolves resp next =>
      resp :: if truthy_opt truthy_str (Gmail.nextPageToken resp)
              then pages_read next else []
  end.

Fixpoint resolves (remote : changelog) : bool :=
  match remote with
  | Rejects _ => false
  | Resolves resp next =>
      if truthy_opt truthy_str (Gmail.nextPageToken resp)
      then resolves next else true
  end.

(* The change events of the pages, in log order *)
Definition records (ps : list Gmail.ListHistoryResponse) : list Gmail.History :=
  flat_map (λ resp, default [] (Gmail.history resp)) ps.

Definition truthy_id (o : option string) : option string :=
  match o with
  | Some i => if truthy_str i then Some i else None
  | None => None
  end.

(* The identifiers of the change events that carry one *)
Definition event_ids (hs : list Gmail.History) : list string :=
  omap (λ h, truthy_id (Gmail.history_id h)) hs.

(* The message identifiers the "message added" sub-events reference *)
Definition mentions_of (h : Gmail.History) : list string :=
  omap (λ m, truthy_id (added_message_id m)) (default [] (Gmail.messagesAdded h)).

Definition mentions (hs : list Gmail.History) : list string :=
  flat_map mentions_of hs.

(* The last element of a list of identifiers, as a position *)
Definition last_position (ids : list string) (otherwise : option jsval)
  : option jsval :=
  match last ids with
  | Some i => Some (JStr i)
  | None => otherwise
  end.

(** ** Reading a payload tree *)

(* The parts in the order [walk] visits them: depth first, a part before its
   children, children left to right *)
Fixpoint dfs (p : Gmail.MessagePart) : list Gmail.MessagePart :=
  p :: match p with
       | Gmail.Part _ _ _ (Some ps) => flat_map dfs ps
       | Gmail.Part _ _ _ None => []
       end.

(* The inline data of a part of media type [m] *)
Definition inline_of (m : string) (p : Gmail.MessagePart) : option string :=
  if mime_is m p then truthy_id (body_data p) else None.

Definition inline_parts (m : string) (p : Gmail.MessagePart) : list string :=
  omap (inline_of m) (dfs p).

Fixpoint first_truthy (l : list string) : string :=
  match l with
  | [] => ""
  | s :: rest => if truthy_str s then s else first_truthy rest
  end.

(* The root carries inline data under a media type that is neither text/plain
   nor text/html *)
Definition foreign_top_level_data (p : Gmail.MessagePart) : bool :=
  (truthy_opt truthy_str (body_data p)
   && negb (mime_is "text/plain" p) && negb (mime_is "text/html" p))%bool.

(* The text the top-level block leaves for parts that are not text/plain *)
Definition provisional_text (p : Gmail.MessagePart) : list string :=
  if foreign_top_level_data p
  then [decodeBase64UrlToUtf8 (or_empty (body_data p))]
  else [].

(** ** Sequences of sync passes *)

Definition run_pass (p : pass) (w : World) : World :=
  (processHistorySince (pass_env p) (pass_remote p) (pass_start p) w).2.

(* The pass starts at or after the persisted cursor, and the log answers with
   events at or after the start *)
Definition in_order (w : World) (p : pass) : Prop :=
  cursor_le (cursor w) (pass_start p) ∧
  Forall (λ i, ∃ s, pass_start p = Some s ∧ position_leb s (JStr i) = true)
         (event_ids (records (pages_read (pass_remote p)))).

Fixpoint in_order_run (w : World) (ps : list pass) : Prop :=
  match ps with
  | [] => True
  | p :: ps => in_order w p ∧ in_order_run (run_pass p w) ps
  end.

(* The persisted cursor before the first pass and after each pass *)
Fixpoint cursor_history (w : World) (ps : list pass) : list (option jsval) :=
  cursor w :: match ps with
              | [] => []
              | p :: ps => cursor_history (run_pass p w) ps
              end.

(* A routine that leaves the store alone and only appends events in [P] *)
Definition quiet {A} (P : event → Prop) (m : M A) : Prop :=
  ∀ w, store (m w).2 = store w ∧
       ∃ evs, trace (m w).2 = trace w ++ evs ∧ Forall P evs.

(* A routine that returns whatever its collaborators do *)
Definition total {A} (m : M A) : Prop :=
  ∀ w, ∃ a w', m w = (inr a, w').

(* An event of the fan-out of [emailData]: not a message fetch, and if it
   hands a message to a sink, it is [emailData] *)
Definition sink_event (emailData : EmailData) (ev : event) : Prop :=
  ¬ is_MessagesGet ev ∧ ∀ e, forwarded_email ev = Some e → e = emailData.

(* Adding identifiers to the pending set one after another *)
Definition add_all (ids added : list string) : list string :=
  fold_left (λ added i, set_add i added) ids added.

(* The pending set and the latest position one pass ends its paging with *)
Definition pending (remote : changelog) : list string :=
  add_all (mentions (records (pages_read remote))) [].

Definition latest_of (startHistoryId : option jsval) (remote : changelog)
  : option jsval :=
  last_position (event_ids (records (pages_read remote))) startHistoryId.

(* The store after the read-modify-write of the cursor *)
Definition persisted (env : Env) (latest : option jsval) (s : backing_store)
  : backing_store :=
  match latest with
  | Some v =>
      if truthy v then
        match writeFileSync env with
        | None => FileRecord (<["historyId" := v]> (stored_state s))
        | Some _ => s
        end
      else s
  | None => s
  end.

Definition is_HistoryList (e : event) : Prop :=
  match e with HistoryList _ _ => True | _ => False end.

(* The identifiers are numbers and never decrease along the list *)
Fixpoint nondecreasing (ids : list string) : bool :=
  match ids with
  | [] => true
  | a :: rest =>
      position_leb (JStr a) (JStr a)
      && match rest with
         | [] => true
         | b :: _ => position_leb (JStr a) (JStr b)
         end
      && nondecreasing rest
  end.

(** ** Reading more of a run *)

(* An event of a sink or of the console *)
Definition sink_or_console (ev : event) : Prop :=
  match ev with
  | SseFrame _ _ _ _ _ | AxiosPost _ _ | Console _ _ _ => True
  | _ => False
  end.

Definition is_Respond (ev : event) : Prop :=
  match ev with Respond _ => True | _ => False end.

(* The frames a broadcast writes: one for every subscriber that accepts it *)
Definition frames (clients : list SseClient) (ev source i : string)
    (emailData : EmailData) : list event :=
  (λ res, SseFrame (client res) ev source i emailData) <$> List.filter accepts clients.

(* The list calls of one pass, by the answers of the remote *)
Fixpoint list_calls (start : string) (tok : option string) (remote : changelog)
  : list event :=
  HistoryList start tok ::
  match remote with
  | Rejects _ => []
  | Resolves resp next =>
      if truthy_opt truthy_str (Gmail.nextPageToken resp)
      then list_calls start (Gmail.nextPageToken resp) next
      else []
  end.

(* The error of the first list call that rejects *)
Fixpoint list_error (remote : changelog) : option exn :=
  match remote with
  | Rejects e => Some e
  | Resolves resp next =>
      if truthy_opt truthy_str (Gmail.nextPageToken resp)
      then list_error next else None
  end.

(* The URLs of the agent relay *)
Definition create_url (base : string) : string :=
  strip_trailing_slash base +:+ CONTAINER_CREATE_PATH.
Definition query_url (env : Env) (base : string) : string :=
  strip_trailing_slash base +:+ CONTAINER_QUERY_BASE +:+ "/" +:+
  encodeURIComponent (CONTAINER_SESSION_ID env) +:+ "/query".

(* The console line after the create request, and after the query *)
Definition session_line (env : Env) (base : string) : event :=
  match axios_post env (create_url base) (PostSession (CONTAINER_SESSION_ID env)) with
  | None => Console Log "Container session created:" (CONTAINER_SESSION_ID env)
  | Some err =>
      if bool_decide (status err = Some 409)
      then Console Log "Container session exists:" (CONTAINER_SESSION_ID env)
      else Console Warn "Container session create failed:" (status_or_message err)
  end.

Definition query_line (env : Env) (base : string) (emailData : EmailData) : event :=
  match axios_post env (query_url env base)
          (PostQuery (buildEmailPrompt emailData) false) with
  | None => Console Log "Posted email to Container API session"
              (CONTAINER_SESSION_ID env)
  | Some err => Console Warn "Container query failed:" (status_or_message err)
  end.

(* What the agent relay does for one message *)
Definition relay_events (env : Env) (emailData : EmailData) : list event :=
  match OUTBOUND_POST_URL env with
  | Some base =>
      if truthy_str base then
        [ AxiosPost (create_url base) (PostSession (CONTAINER_SESSION_ID env));
          session_line env base;
          AxiosPost (query_url env base) (PostQuery (buildEmailPrompt emailData) false);
          query_line env base emailData ]
      else []
  | None => []
  end.

(* The legacy webhook: its post, and the error it rejects with *)
Definition webhook_events (env : Env) (emailData : EmailData) : list event :=
  if truthy_opt truthy_str (NGROK_ENDPOINT env)
  then [AxiosPost (or_empty (NGROK_ENDPOINT env)) (PostEmail emailData)]
  else [].

Definition webhook_error (env : Env) (emailData : EmailData) : option exn :=
  if truthy_opt truthy_str (NGROK_ENDPOINT env)
  then axios_post env (or_empty (NGROK_ENDPOINT env)) (PostEmail emailData)
  else None.

(* The fan-out of one message to the three sinks *)
Definition fan_out_events (env : Env) (source i : string) (emailData : EmailData)
  : list event :=
  frames (sseClients env) "email" source i emailData ++
  webhook_events env emailData ++
  match webhook_error env emailData with
  | Some _ => []
  | None => relay_events env emailData
  end.

(* An event of the forwarding stage of a pass *)
Definition forward_event (ev : event) : Prop :=
  is_MessagesGet ev ∨ sink_or_console ev.

(* The store a push route leaves behind *)
Definition store_after_push (env : Env) (remote : changelog) (req : push_body)
    (s : backing_store) : backing_store :=
  match req with
  | Notification (Some v) =>
      if truthy v then
        match list_error remote with
        | Some _ => s
        | None =>
            persisted env (latest_of (start_position (stored_state s) (Some v)) remote) s
        end
      else s
  | _ => s
  end.

(* The pages of a pass that carry a token for the next call *)
Definition has_token (resp : Gmail.ListHistoryResponse) : bool :=
  truthy_opt truthy_str (Gmail.nextPageToken resp).

(** ** Reading strings *)

(* Replacing every [c] of a string by [by_], character by character *)
Fixpoint subst_char (c : ascii) (by_ : string) (s : string) : string :=
  match s with
  | EmptyString => EmptyString
  | String a t =>
      (if Ascii.eqb c a then by_ else String a EmptyString) +:+ subst_char c by_ t
  end.

Fixpoint occurs (c : ascii) (s : string) : bool :=
  match s with
  | EmptyString => false
  | String a t => (Ascii.eqb c a || occurs c t)%bool
  end.

(* The entity the dashboard writes for a character *)
Definition escape_char (a : ascii) : string :=
  if Ascii.eqb "&" a then "&amp;"
  else if Ascii.eqb "<" a then "&lt;"
  else if Ascii.eqb ">" a then "&gt;"
  else if Ascii.eqb (byte_of 34) a then "&quot;"
  else if Ascii.eqb "'" a then "&#39;"
  else String a EmptyString.

Fixpoint escape_each (s : string) : string :=
  match s with
  | EmptyString => EmptyString
  | String a t => escape_char a +:+ escape_each t
  end.

(* The standard base64 alphabet for the URL-safe one *)
Definition to_standard_char (a : ascii) : ascii :=
  if Ascii.eqb "-" a then "+"%char else if Ascii.eqb "_" a then "/"%char else a.

Fixpoint to_standard (s : string) : string :=
  match s with
  | EmptyString => EmptyString
  | String a t => String (to_standard_char a) (to_standard t)
  end.

(* The last three replacements of [stripHtml]: white space only *)
Definition normalise_space (s : string) : string :=
  replace_all re_spaces2 " "
    (replace_all re_newlines3 (newline +:+ newline)
       (replace_all re_space_newline newline s)).

(** * Properties *)

(** ** Sequencing, exceptions and the trace *)

Lemma bind_inr {A B} (m : M A) (f : A → M B) w a w' :
  m w = (inr a, w') → (m ≫= f) w = f a w'.
Proof. intros H. unfold mbind, M_bind. by rewrite H. Qed.

Lemma bind_inl {A B} (m : M A) (f : A → M B) w e w' :
  m w = (inl e, w') → (m ≫= f) w = (inl e, w').
Proof. intros H. unfold mbind, M_bind. by rewrite H. Qed.

Lemma bind_inv {A B} (m : M A) (f : A → M B) w b w' :
  (m ≫= f) w = (inr b, w') → ∃ a w1, m w = (inr a, w1) ∧ f a w1 = (inr b, w').
Proof.
  unfold mbind, M_bind. destruct (m w) as [[e|a] w1]; [done|]. by exists a, w1.
Qed.

Lemma quiet_ret {A} P (a : A) : quiet P (mret a).
Proof. intros w. split; [done|]. exists []. by rewrite app_nil_r. Qed.

Lemma quiet_throw {A} P e : quiet P (@throw A e).
Proof. intros w. split; [done|]. exists []. by rewrite app_nil_r. Qed.

Lemma quiet_liftE {A} P (r : exn + A) : quiet P (liftE r).
Proof. intros w. split; [done|]. exists []. by rewrite app_nil_r. Qed.

Lemma quiet_emit (P : event → Prop) e : P e → quiet P (emit e).
Proof. intros He w. split; [done|]. exists [e]. split; [done|]. by constructor. Qed.

Lemma quiet_bind {A B} P (m : M A) (f : A → M B) :
  quiet P m → (∀ a, quiet P (f a)) → quiet P (m ≫= f).
Proof.
  intros Hm Hf w. destruct (Hm w) as [Hs (evs & Ht & HP)].
  destruct (m w) as [[e|a] w1] eqn:E; simpl in *.
  - rewrite (bind_inl _ _ _ _ _ E). simpl. eauto.
  - rewrite (bind_inr _ _ _ _ _ E).
    destruct (Hf a w1) as [Hs' (evs' & Ht' & HP')].
    split; [congruence|]. exists (evs ++ evs').
    split; [by rewrite Ht', Ht, app_assoc | by apply Forall_app].
Qed.

Lemma quiet_try_catch {A} P (m : M A) (h : exn → M A) :
  quiet P m → (∀ e, quiet P (h e)) → quiet P (try_catch m h).
Proof.
  intros Hm Hh w. destruct (Hm w) as [Hs (evs & Ht & HP)].
  unfold try_catch. destruct (m w) as [[e|a] w1] eqn:E; simpl in *.
  - destruct (Hh e w1) as [Hs' (evs' & Ht' & HP')].
    split; [congruence|]. exists (evs ++ evs').
    split; [by rewrite Ht', Ht, app_assoc | by apply Forall_app].
  - eauto.
Qed.

Lemma quiet_when P b (m : M unit) : quiet P m → quiet P (when b m).
Proof. destruct b; [done|]. intros _. apply quiet_ret. Qed.

Lemma quiet_weaken {A} (P Q : event → Prop) (m : M A) :
  (∀ e, P e → Q e) → quiet P m → quiet Q m.
Proof.
  intros HPQ Hm w. destruct (Hm w) as [Hs (evs & Ht & HP)].
  split; [done|]. exists evs. split; [done|]. eapply Forall_impl; eauto.
Qed.

Lemma total_ret {A} (a : A) : total (mret a).
Proof. intros w. by exists a, w. Qed.

Lemma total_emit e : total (emit e).
Proof. intros w. by eexists _, _. Qed.

Lemma total_bind {A B} (m : M A) (f : A → M B) :
  total m → (∀ a, total (f a)) → total (m ≫= f).
Proof.
  intros Hm Hf w. destruct (Hm w) as (a & w1 & E).
  rewrite (bind_inr _ _ _ _ _ E). apply Hf.
Qed.

Lemma total_try_catch {A} (m : M A) (h : exn → M A) :
  (∀ e, total (h e)) → total (try_catch m h).
Proof.
  intros Hh w. unfold try_catch. destruct (m w) as [[e|a] w1].
  - apply Hh.
  - by exists a, w1.
Qed.

Lemma events_since_app w w' evs :
  trace w' = trace w ++ evs → events_since w w' = evs.
Proof. intros H. unfold events_since. rewrite H. by rewrite drop_app_length. Qed.

Lemma forward_calls_app t1 t2 :
  forward_calls (t1 ++ t2) = forward_calls t1 ++ forward_calls t2.
Proof. apply omap_app. Qed.

Lemma forward_calls_none evs :
  Forall (λ e, ¬ is_MessagesGet e) evs → forward_calls evs = [].
Proof.
  induction 1 as [|e evs He _ IH]; [done|].
  unfold forward_calls in *. simpl. by destruct e; simpl in *.
Qed.

(** ** The cursor store *)

Lemma loadState_spec w : loadState w = (inr (stored_state (store w)), w).
Proof. unfold loadState, try_catch, read_state_file. by destruct (store w). Qed.

Lemma saveState_spec env obj w :
  saveState env obj w =
  (inr tt,
   match writeFileSync env with
   | None => {| store := FileRecord obj; trace := trace w |}
   | Some e => {| store := store w;
                  trace := trace w ++ [Console Error "Failed to save state:" (message e)] |}
   end).
Proof. unfold saveState, try_catch, write_state_file. by destruct (writeFileSync env). Qed.

(** ** The sinks *)

Local Ltac sink_ev := split; [intros [] | intros ? [=]; done].

Lemma quiet_post e0 env url payload :
  sink_event e0 (AxiosPost url payload) → quiet (sink_event e0) (post env url payload).
Proof.
  intros H. unfold post. apply quiet_bind; [by apply quiet_emit|]. intros _.
  destruct (axios_post env url payload); [apply quiet_throw | apply quiet_ret].
Qed.

Lemma quiet_console e0 l a b : quiet (sink_event e0) (emit (Console l a b)).
Proof. apply quiet_emit. sink_ev. Qed.

Lemma quiet_sseBroadcast e0 clients ev source i :
  quiet (sink_event e0) (sseBroadcast clients ev source i e0).
Proof.
  induction clients as [|res rest IH]; simpl; [apply quiet_ret|].
  apply quiet_bind; [|done].
  apply quiet_try_catch; [|intros; apply quiet_ret].
  destruct (accepts res); [|apply quiet_throw].
  apply quiet_emit. split; [intros [] | by intros ? [= <-]].
Qed.

Lemma quiet_ensureContainerSession e0 env :
  quiet (sink_event e0) (ensureContainerSession env).
Proof.
  unfold ensureContainerSession.
  destruct (OUTBOUND_POST_URL env) as [base|]; [|apply quiet_ret].
  destruct (truthy_str base); [|apply quiet_ret].
  apply quiet_try_catch.
  - apply quiet_bind; [apply quiet_post; sink_ev | intros; apply quiet_console].
  - intros err. case_bool_decide; apply quiet_console.
Qed.

Lemma quiet_postEmailToContainerAPI e0 env :
  quiet (sink_event e0) (postEmailToContainerAPI env e0).
Proof.
  unfold postEmailToContainerAPI.
  destruct (OUTBOUND_POST_URL env) as [base|]; [|apply quiet_ret].
  destruct (truthy_str base); [|apply quiet_ret].
  apply quiet_bind; [apply quiet_ensureContainerSession|]. intros _.
  apply quiet_try_catch.
  - apply quiet_bind; [apply quiet_post; sink_ev | intros; apply quiet_console].
  - intros err. apply quiet_console.
Qed.

(* The agent relay never throws *)
Lemma total_ensureContainerSession env : total (ensureContainerSession env).
Proof.
  unfold ensureContainerSession.
  destruct (OUTBOUND_POST_URL env) as [base|]; [|apply total_ret].
  destruct (truthy_str base); [|apply total_ret].
  apply total_try_catch. intros err. case_bool_decide; apply total_emit.
Qed.

Lemma total_postEmailToContainerAPI env emailData :
  total (postEmailToContainerAPI env emailData).
Proof.
  unfold postEmailToContainerAPI.
  destruct (OUTBOUND_POST_URL env) as [base|]; [|apply total_ret].
  destruct (truthy_str base); [|apply total_ret].
  apply total_bind; [apply total_ensureContainerSession|]. intros _.
  apply total_try_catch. intros err. apply total_emit.
Qed.

(** ** Forwarding *)

(* What one call of [forwardMessageById] does to the world, whatever it returns *)
Lemma forwardMessageById_effect env i w :
  let w' := (forwardMessageById env i w).2 in
  store w' = store w ∧
  ∃ evs, trace w' = trace w ++ MessagesGet i :: evs ∧
    match messages_get env i with
    | inr msg =>
        match Gmail.payload msg with
        | Some p =>
            Forall (sink_event (make_emailData p (extractEmailBodies (Some p)))) evs
        | None => evs = []
        end
    | inl _ => evs = []
    end.
Proof.
  cbv zeta. unfold forwardMessageById.
  set (w1 := {| store := store w; trace := trace w ++ [MessagesGet i] |}).
  rewrite (bind_inr (emit _) _ w tt w1 eq_refl).
  destruct (messages_get env i) as [e|msg].
  { rewrite (bind_inl (liftE _) _ w1 e w1 eq_refl).
    split; [done|]. exists []. done. }
  rewrite (bind_inr (liftE _) _ w1 msg w1 eq_refl).
  destruct (Gmail.payload msg) as [p|].
  2:{ split; [done|]. exists []. done. }
  set (e0 := make_emailData p (extractEmailBodies (Some p))).
  match goal with |- context [ (?m w1).2 ] => assert (Hq : quiet (sink_event e0) m) end.
  { apply quiet_bind.
    { apply quiet_try_catch; [apply quiet_sseBroadcast | intros; apply quiet_ret]. }
    intros _. apply quiet_bind.
    { apply quiet_when. apply quiet_post.
      split; [intros [] | by intros ? [= <-]]. }
    intros _. apply quiet_bind; [apply quiet_postEmailToContainerAPI|].
    intros _. apply quiet_ret. }
  destruct (Hq w1) as [Hs (evs & Ht & HP)]. split; [done|].
  exists evs. split; [|done]. rewrite Ht. simpl. by rewrite <- app_assoc.
Qed.

Lemma total_sseBroadcast clients ev source i emailData :
  total (sseBroadcast clients ev source i emailData).
Proof.
  induction clients as [|res rest IH]; simpl; [apply total_ret|].
  apply total_bind; [|done]. apply total_try_catch. intros _. apply total_ret.
Qed.

(* The broadcast and the agent relay are isolated: once the message is
   resolved, only the legacy webhook can make the forward throw *)
Lemma forwardMessageById_returns env i w msg p :
  messages_get env i = inr msg →
  Gmail.payload msg = Some p →
  let emailData := make_emailData p (extractEmailBodies (Some p)) in
  (truthy_opt truthy_str (NGROK_ENDPOINT env) = true →
   axios_post env (or_empty (NGROK_ENDPOINT env)) (PostEmail emailData) = None) →
  ∃ w', forwardMessageById env i w = (inr emailData, w').
Proof.
  intros Hmsg Hp emailData Hhook. unfold forwardMessageById.
  rewrite (bind_inr (emit _) _ w tt _ eq_refl).
  rewrite Hmsg. rewrite (bind_inr (liftE _) _ _ msg _ eq_refl).
  rewrite Hp. fold emailData.
  match goal with
  | |- ∃ w', ?m ?w1 = _ =>
      assert (Ht : total m); [|destruct (Ht w1) as (a & w' & E)]
  end.
  - apply total_bind.
    { apply total_try_catch. intros _. apply total_ret. }
    intros _. apply total_bind.
    { unfold when. destruct (truthy_opt truthy_str (NGROK_ENDPOINT env)); [|apply total_ret].
      unfold post. apply total_bind; [apply total_emit|]. intros _.
      rewrite (Hhook eq_refl). apply total_ret. }
    intros _. apply total_bind; [apply total_postEmailToContainerAPI|].
    intros _. apply total_ret.
  - exists w'. rewrite E. f_equal. f_equal.
    apply bind_inv in E as (? & ? & _ & E).
    apply bind_inv in E as (? & ? & _ & E).
    apply bind_inv in E as (? & ? & _ & E).
    by injection E.
Qed.

(* The loop over the pending set: never throws, leaves the store alone, and
   calls [forwardMessageById] on every identifier, in order *)
Lemma forward_all_spec env added w :
  ∃ w', forward_all env added w = (inr tt, w') ∧
        store w' = store w ∧
        ∃ evs, trace w' = trace w ++ evs ∧ forward_calls evs = added.
Proof.
  revert w. induction added as [|i rest IH]; intros w; simpl.
  { exists w. split; [done|]. split; [done|]. exists []. by rewrite app_nil_r. }
  destruct (forwardMessageById_effect env i w) as [Hs (evs & Ht & Hevs)].
  assert (Hnone : forward_calls evs = []).
  { apply forward_calls_none.
    destruct (messages_get env i) as [e|msg]; [by subst|].
    destruct (Gmail.payload msg); [|by subst].
    eapply Forall_impl; [exact Hevs|]. by intros ? [? _]. }
  unfold mbind at 1, M_bind, try_catch.
  unfold mbind at 1, M_bind.
  destruct (forwardMessageById env i w) as [[e|a] w1] eqn:E; simpl in *.
  - match goal with |- context [ forward_all env rest ?w2 ] =>
      destruct (IH w2) as (w' & E' & Hs' & evs' & Ht' & Hc') end.
    exists w'. split; [done|]. simpl in *. split; [congruence|].
    eexists (MessagesGet i :: evs ++ _ :: evs'). split.
    + rewrite Ht', Ht. by rewrite <- !app_assoc.
    + change (MessagesGet i :: evs ++ ?x :: evs')
        with ([MessagesGet i] ++ evs ++ [x] ++ evs').
      rewrite !forward_calls_app, Hnone, Hc'. done.
  - destruct (IH w1) as (w' & E' & Hs' & evs' & Ht' & Hc').
    exists w'. split; [done|]. split; [congruence|].
    exists (MessagesGet i :: evs ++ evs'). split.
    + rewrite Ht', Ht. by rewrite <- !app_assoc.
    + change (MessagesGet i :: evs ++ evs') with ([MessagesGet i] ++ evs ++ evs').
      rewrite !forward_calls_app, Hnone, Hc'. done.
Qed.

(** ** The pending set *)

Lemma set_add_elem x y s : y ∈ set_add x s ↔ y ∈ s ∨ y = x.
Proof.
  unfold set_add. case_bool_decide.
  - split; [by left|]. intros [?| ->]; done.
  - rewrite elem_of_app, list_elem_of_singleton. done.
Qed.

Lemma set_add_NoDup x s : NoDup s → NoDup (set_add x s).
Proof.
  intros H. unfold set_add. case_bool_decide; [done|].
  apply NoDup_app. split; [done|]. split.
  - intros y Hy ->%list_elem_of_singleton. done.
  - apply NoDup_singleton.
Qed.

Lemma add_all_elem ids added y : y ∈ add_all ids added ↔ y ∈ added ∨ y ∈ ids.
Proof.
  revert added. induction ids as [|i ids IH]; intros added; simpl.
  - split; [by left|]. intros [?|H]; [done|]. by apply elem_of_nil in H.
  - change (add_all (i :: ids) added) with (add_all ids (set_add i added)).
    rewrite IH, set_add_elem, elem_of_cons. tauto.
Qed.

Lemma add_all_NoDup ids added : NoDup added → NoDup (add_all ids added).
Proof.
  revert added. induction ids as [|i ids IH]; intros added H; [done|].
  unfold add_all in *. simpl. apply IH. by apply set_add_NoDup.
Qed.

Lemma add_all_app ids1 ids2 added :
  add_all (ids1 ++ ids2) added = add_all ids2 (add_all ids1 added).
Proof. unfold add_all. by rewrite fold_left_app. Qed.

Lemma fold_added_spec ms added :
  fold_added ms added = add_all (omap (λ m, truthy_id (added_message_id m)) ms) added.
Proof.
  revert added. induction ms as [|m ms IH]; intros added; [done|].
  unfold fold_added in *. simpl. rewrite IH. unfold truthy_id.
  destruct (added_message_id m) as [i|]; [|done].
  by destruct (truthy_str i).
Qed.

(** ** The latest position *)

Lemma last_position_app ids1 ids2 o :
  last_position (ids1 ++ ids2) o = last_position ids2 (last_position ids1 o).
Proof.
  unfold last_position. rewrite last_app.
  by destruct (last ids2).
Qed.

Lemma fold_history_spec hs latest added :
  fold_history hs (latest, added) =
  (last_position (event_ids hs) latest, add_all (mentions hs) added).
Proof.
  revert latest added. induction hs as [|h hs IH]; intros latest added; [done|].
  unfold fold_history in *. simpl. rewrite IH. f_equal.
  - unfold event_ids. simpl. unfold truthy_id, js_or.
    destruct (Gmail.history_id h) as [i|]; simpl; [|done].
    destruct (truthy_str i) eqn:Hi; simpl; [|done].
    change (i :: ?l) with ([i] ++ l). by rewrite last_position_app.
  - unfold mentions. simpl. rewrite add_all_app. f_equal. apply fold_added_spec.
Qed.

Lemma records_cons resp ps :
  records (resp :: ps) = default [] (Gmail.history resp) ++ records ps.
Proof. done. Qed.

Lemma event_ids_app hs1 hs2 : event_ids (hs1 ++ hs2) = event_ids hs1 ++ event_ids hs2.
Proof. apply omap_app. Qed.

Lemma mentions_app hs1 hs2 : mentions (hs1 ++ hs2) = mentions hs1 ++ mentions hs2.
Proof. apply flat_map_app. Qed.

(** ** Paging *)

(* What the do-while loop does, by the answers of the remote *)
Lemma list_pages_spec start remote tok latest added w :
  ∃ r evs,
    list_pages start remote tok (latest, added) w =
      (r, {| store := store w;
             trace := trace w ++ HistoryList (to_String_opt start) tok :: evs |}) ∧
    Forall is_HistoryList evs ∧
    if resolves remote
    then r = inr (last_position (event_ids (records (pages_read remote))) latest,
                  add_all (mentions (records (pages_read remote))) added)
    else ∃ e, r = inl e.
Proof.
  revert tok latest added w.
  induction remote as [e|resp next IH]; intros tok latest added w;
    cbn [list_pages pages_read resolves].
  - exists (inl e), []. split; [done|]. split; [done|]. by exists e.
  - rewrite (bind_inr (emit _) _ w tt _ eq_refl).
    rewrite fold_history_spec.
    destruct (truthy_opt truthy_str (Gmail.nextPageToken resp)).
    + match goal with |- context [ list_pages _ _ ?t (?l, ?a) ?w1 ] =>
        destruct (IH t l a w1) as (r & evs & E & Hevs & Hr) end.
      exists r. eexists (_ :: evs). rewrite E. simpl. split.
      { by rewrite <- app_assoc. }
      split; [by constructor|].
      rewrite ?records_cons, event_ids_app, mentions_app.
      by rewrite last_position_app, add_all_app.
    + exists (inr (last_position (event_ids (default [] (Gmail.history resp))) latest,
                   add_all (mentions (default [] (Gmail.history resp))) added)), [].
      split; [done|]. split; [done|].
      by rewrite records_cons, !app_nil_r.
Qed.

Lemma forward_calls_HistoryList evs :
  Forall is_HistoryList evs → forward_calls evs = [].
Proof.
  intros H. apply forward_calls_none. eapply Forall_impl; [exact H|].
  intros e He Hg. by destruct e.
Qed.

(** ** Persisting the cursor *)

Lemma persist_cursor_spec env latest w :
  ∃ evs, persist_cursor env latest w =
           (inr tt, {| store := persisted env latest (store w);
                       trace := trace w ++ evs |}) ∧
         forward_calls evs = [].
Proof.
  unfold persist_cursor, persisted.
  destruct w as [s t]. destruct latest as [v|]; simpl.
  2:{ exists []. by rewrite app_nil_r. }
  destruct (truthy v).
  2:{ exists []. by rewrite app_nil_r. }
  rewrite (bind_inr loadState _ _ _ _ (loadState_spec _)).
  rewrite saveState_spec. simpl.
  destruct (writeFileSync env).
  - by eexists [_].
  - exists []. by rewrite app_nil_r.
Qed.

(** ** A whole pass *)

Lemma processHistorySince_resolves env remote start w :
  resolves remote = true →
  ∃ w', processHistorySince env remote start w =
          (inr {| count := length (pending remote);
                  latestHistoryId := latest_of start remote |}, w') ∧
        store w' = persisted env (latest_of start remote) (store w) ∧
        forward_calls (events_since w w') = pending remote.
Proof.
  intros Hres. unfold processHistorySince.
  destruct (list_pages_spec start remote None start [] w)
    as (r & evs & E & Hevs & Hr).
  rewrite Hres in Hr. subst r.
  rewrite (bind_inr _ _ _ _ _ E). fold (pending remote) (latest_of start remote).
  set (w1 := {| store := store w;
                trace := trace w ++ HistoryList (to_String_opt start) None :: evs |}) in *.
  destruct (forward_all_spec env (pending remote) w1)
    as (w2 & E2 & Hs2 & evs2 & Ht2 & Hc2).
  rewrite (bind_inr _ _ _ _ _ E2).
  destruct (persist_cursor_spec env (latest_of start remote) w2)
    as (evs3 & E3 & Hc3).
  rewrite (bind_inr _ _ _ _ _ E3).
  eexists. split; [reflexivity|]. simpl. split; [by rewrite Hs2|].
  erewrite (events_since_app w _
              ([HistoryList (to_String_opt start) None] ++ evs ++ evs2 ++ evs3)).
  2:{ simpl. rewrite Ht2. unfold w1. simpl. by rewrite <- !app_assoc. }
  rewrite !forward_calls_app, Hc2, Hc3, (forward_calls_HistoryList _ Hevs).
  simpl. by rewrite app_nil_r.
Qed.

Lemma processHistorySince_rejects env remote start w :
  resolves remote = false →
  ∃ e w', processHistorySince env remote start w = (inl e, w') ∧
          store w' = store w ∧
          forward_calls (events_since w w') = [].
Proof.
  intros Hres. unfold processHistorySince.
  destruct (list_pages_spec start remote None start [] w)
    as (r & evs & E & Hevs & Hr).
  rewrite Hres in Hr. destruct Hr as [e ->].
  rewrite (bind_inl _ _ _ _ _ E).
  eexists _, _. split; [reflexivity|]. simpl. split; [done|].
  erewrite (events_since_app w _ ([HistoryList (to_String_opt start) None] ++ evs));
    [|done].
  by rewrite forward_calls_app, (forward_calls_HistoryList _ Hevs).
Qed.

(** ** Order of positions *)

Lemma position_leb_trans a b c :
  position_leb a b = true → position_leb b c = true → position_leb a c = true.
Proof.
  unfold position_leb.
  destruct (numeric a) as [x|], (numeric b) as [y|], (numeric c) as [z|]; try done.
  intros H1%Z.leb_le H2%Z.leb_le. apply Z.leb_le. lia.
Qed.

Lemma cursor_le_refl a : cursor_le a a.
Proof. by left. Qed.

Lemma cursor_le_trans a b c : cursor_le a b → cursor_le b c → cursor_le a c.
Proof.
  intros [-> | [-> | (x & y & -> & -> & Hxy)]] Hbc; [done | by right; left |].
  destruct Hbc as [<- | [? | (y' & z & [= <-] & -> & Hyz)]]; [|done|].
  - right; right. by exists x, y.
  - right; right. exists x, z. eauto using position_leb_trans.
Qed.

Lemma nondecreasing_bounded_by_last ids i :
  nondecreasing ids = true → i ∈ ids →
  ∃ l, last ids = Some l ∧ position_leb (JStr i) (JStr l) = true.
Proof.
  revert i. induction ids as [|a rest IH]; intros i; [by intros _ ?%elem_of_nil|].
  cbn [nondecreasing]. intros [[Haa Hab]%andb_prop Hrest]%andb_prop Hi.
  destruct rest as [|b rest'].
  - apply list_elem_of_singleton in Hi as ->. by exists a.
  - apply elem_of_cons in Hi as [-> | Hi].
    + destruct (IH b Hrest) as (l & Hl & Hbl); [by left|].
      exists l. split; [done|]. eauto using position_leb_trans.
    + destruct (IH i Hrest Hi) as (l & Hl & Hil). by exists l.
Qed.

Lemma last_position_nil o : last_position [] o = o.
Proof. done. Qed.

Lemma last_elem (ids : list string) l : last ids = Some l → l ∈ ids.
Proof.
  rewrite last_lookup. apply list_elem_of_lookup_2.
Qed.

(** ** One pass and the cursor *)

Lemma cursor_persisted env v s :
  truthy v = true → writeFileSync env = None →
  stored_state (persisted env (Some v) s) !! "historyId" = Some v.
Proof. intros Hv Hw. unfold persisted. rewrite Hv, Hw. simpl. apply lookup_insert_eq. Qed.

Lemma run_pass_store p w :
  store (run_pass p w) = store w ∨
  ∃ v, latest_of (pass_start p) (pass_remote p) = Some v ∧
       store (run_pass p w) = FileRecord (<["historyId" := v]> (stored_state (store w))).
Proof.
  unfold run_pass. destruct (resolves (pass_remote p)) eqn:Hres.
  - destruct (processHistorySince_resolves (pass_env p) _ (pass_start p) w Hres)
      as (w' & E & Hs & _).
    rewrite E. simpl. rewrite Hs. unfold persisted.
    destruct (latest_of _ _) as [v|]; [|by left].
    destruct (truthy v); [|by left].
    destruct (writeFileSync _); [by left|]. right. by exists v.
  - destruct (processHistorySince_rejects (pass_env p) _ (pass_start p) w Hres)
      as (e & w' & E & Hs & _).
    rewrite E. by left.
Qed.

Lemma run_pass_cursor_le p w :
  in_order w p → cursor_le (cursor w) (cursor (run_pass p w)).
Proof.
  intros [Hstart Hids]. unfold cursor.
  destruct (run_pass_store p w) as [-> | (v & Hv & ->)]; [apply cursor_le_refl|].
  simpl. rewrite lookup_insert_eq.
  unfold latest_of, last_position in Hv.
  destruct (last _) as [l|] eqn:Hl.
  - injection Hv as <-. apply last_elem in Hl.
    rewrite Forall_forall in Hids. destruct (Hids l Hl) as (s & Hs & Hle).
    eapply cursor_le_trans; [exact Hstart|]. rewrite Hs.
    right; right. by exists s, (JStr l).
  - by rewrite <- Hv.
Qed.

Lemma cursor_history_bounded w ps c :
  in_order_run w ps → c ∈ cursor_history w ps → cursor_le (cursor w) c.
Proof.
  revert w. induction ps as [|p ps IH]; intros w Hrun Hc; simpl in *.
  - apply list_elem_of_singleton in Hc as ->. apply cursor_le_refl.
  - destruct Hrun as [Hp Hrun].
    apply elem_of_cons in Hc as [-> | Hc]; [apply cursor_le_refl|].
    eapply cursor_le_trans; [by apply run_pass_cursor_le|]. by apply IH.
Qed.

(** ** The push routes *)

Lemma processHistorySince_first_call env remote start w :
  ∃ rest, trace (processHistorySince env remote start w).2 =
          trace w ++ HistoryList (to_String_opt start) None :: rest.
Proof.
  unfold processHistorySince.
  destruct (list_pages_spec start remote None start [] w)
    as (r & evs & E & _ & _).
  destruct r as [e|[latest added]].
  { rewrite (bind_inl _ _ _ _ _ E). by exists evs. }
  rewrite (bind_inr _ _ _ _ _ E).
  match type of E with _ = (_, ?w0) => set (w1 := w0) end.
  destruct (forward_all_spec env added w1) as (w2 & E2 & _ & evs2 & Ht2 & _).
  rewrite (bind_inr _ _ _ _ _ E2).
  destruct (persist_cursor_spec env latest w2) as (evs3 & E3 & _).
  rewrite (bind_inr _ _ _ _ _ E3). simpl.
  exists (evs ++ evs2 ++ evs3). rewrite Ht2. unfold w1. simpl.
  by rewrite <- !app_assoc.
Qed.

Lemma push_route_first_call route env remote hint w :
  truthy hint = true →
  ∃ rest,
    trace (push_route route env remote (Notification (Some hint)) w).2 =
    trace w ++ Respond 204 ::
      HistoryList (to_String_opt (start_position (stored_state (store w)) (Some hint)))
                  None :: rest.
Proof.
  intros Hh. unfold push_route.
  rewrite (bind_inr (emit _) _ w tt _ eq_refl).
  unfold truthy_opt. rewrite Hh. unfold try_catch.
  rewrite (bind_inr loadState _ _ _ _ (loadState_spec _)). simpl store.
  set (start := start_position (stored_state (store w)) (Some hint)).
  set (w1 := {| store := store w; trace := trace w ++ [Respond 204] |}).
  destruct (processHistorySince_first_call env remote start w1) as [rest Hr].
  destruct (processHistorySince env remote start w1) as [[e|r] w2] eqn:E.
  - rewrite (bind_inl _ _ _ _ _ E). simpl in *. rewrite Hr.
    eexists (rest ++ [_]). by rewrite <- !app_assoc.
  - rewrite (bind_inr _ _ _ _ _ E). simpl in *. rewrite Hr.
    exists rest. by rewrite <- !app_assoc.
Qed.

(** ** The payload tree *)

Lemma MessagePart_forall_ind (P : Gmail.MessagePart → Prop) :
  (∀ m b h, P (Gmail.Part m b h None)) →
  (∀ m b h ps, Forall P ps → P (Gmail.Part m b h (Some ps))) →
  ∀ p, P p.
Proof.
  intros Hleaf Hnode. fix IH 1. intros [m b h [ps|]]; [|apply Hleaf].
  apply Hnode. induction ps as [|q ps IHps]; constructor; [apply IH | apply IHps].
Qed.

(* [walk] visits the parts in the order of [dfs] *)
Lemma walk_dfs p acc : walk p acc = fold_left (λ acc q, visit q acc) (dfs p) acc.
Proof.
  revert acc. induction p as [m b h | m b h ps IH] using MessagePart_forall_ind;
    intros acc; [done|].
  cbn [walk dfs fold_left].
  generalize (visit (Gmail.Part m b h (Some ps)) acc). clear acc.
  induction IH as [|q ps Hq _ IHps]; intros acc; [done|].
  cbn [flat_map fold_left]. rewrite fold_left_app, <- Hq. apply IHps.
Qed.

Lemma first_truthy_app_truthy l1 l2 :
  truthy_str (first_truthy l1) = true → first_truthy (l1 ++ l2) = first_truthy l1.
Proof.
  induction l1 as [|s l1 IH]; simpl; [done|].
  destruct (truthy_str s); [done | apply IH].
Qed.

Lemma first_truthy_nested l1 l2 :
  first_truthy (first_truthy l1 :: l2) = first_truthy (l1 ++ l2).
Proof.
  induction l1 as [|s l1 IH]; simpl; [done|].
  destruct (truthy_str s) eqn:Hs; simpl; [by rewrite Hs | apply IH].
Qed.

Lemma truthy_str_false s : truthy_str s = false → s = "".
Proof. by destruct s. Qed.

Lemma truthy_str_true s : s ≠ "" → truthy_str s = true.
Proof. by destruct s. Qed.

Lemma visit_text q acc :
  text (visit q acc) =
  first_truthy (text acc :: (decodeBase64UrlToUtf8 <$> omap (inline_of "text/plain") [q])).
Proof.
  unfold visit, inline_of, truthy_id. simpl.
  destruct (body_data q) as [d|]; simpl.
  2:{ destruct (mime_is "text/plain" q); simpl;
        destruct (truthy_str (text acc)) eqn:Ht; try done;
        by apply truthy_str_false in Ht. }
  destruct (mime_is "text/plain" q), (truthy_str d), (truthy_str (text acc)) eqn:Ht;
    simpl; rewrite ?Ht;
    repeat match goal with
           | |- context [ if ?c then _ else _ ] => destruct c eqn:?
           end; simpl; try done;
    try (by apply truthy_str_false in Ht);
    try (by apply truthy_str_false);
    try (symmetry; by apply truthy_str_false).
Qed.

Lemma visit_html q acc :
  html (visit q acc) =
  first_truthy (html acc :: (decodeBase64UrlToUtf8 <$> omap (inline_of "text/html") [q])).
Proof.
  unfold visit, inline_of, truthy_id. simpl.
  destruct (body_data q) as [d|]; simpl.
  2:{ destruct (mime_is "text/html" q); simpl;
        destruct (truthy_str (html acc)) eqn:Ht; try done;
        by apply truthy_str_false in Ht. }
  destruct (mime_is "text/plain" q), (mime_is "text/html" q), (truthy_str d),
    (truthy_str (text acc)), (truthy_str (html acc)) eqn:Ht;
    simpl; rewrite ?Ht;
    repeat match goal with
           | |- context [ if ?c then _ else _ ] => destruct c eqn:?
           end; simpl; try done;
    try (by apply truthy_str_false in Ht);
    try (by apply truthy_str_false);
    try (symmetry; by apply truthy_str_false).
Qed.

Lemma fold_visit_text l acc :
  text (fold_left (λ acc q, visit q acc) l acc) =
  first_truthy (text acc :: (decodeBase64UrlToUtf8 <$> omap (inline_of "text/plain") l)).
Proof.
  revert acc. induction l as [|q l IH]; intros acc.
  { simpl. destruct (truthy_str (text acc)) eqn:Ht; [done|].
    by apply truthy_str_false in Ht. }
  cbn [fold_left]. rewrite IH, visit_text, first_truthy_nested.
  change (q :: l) with ([q] ++ l). by rewrite omap_app, fmap_app.
Qed.

Lemma fold_visit_html l acc :
  html (fold_left (λ acc q, visit q acc) l acc) =
  first_truthy (html acc :: (decodeBase64UrlToUtf8 <$> omap (inline_of "text/html") l)).
Proof.
  revert acc. induction l as [|q l IH]; intros acc.
  { simpl. destruct (truthy_str (html acc)) eqn:Ht; [done|].
    by apply truthy_str_false in Ht. }
  cbn [fold_left]. rewrite IH, visit_html, first_truthy_nested.
  change (q :: l) with ([q] ++ l). by rewrite omap_app, fmap_app.
Qed.

Lemma mime_plain_not_html p :
  mime_is "text/plain" p = true → mime_is "text/html" p = false.
Proof.
  unfold mime_is. destruct (Gmail.mimeType p) as [m|]; [|done].
  intros H%String.eqb_eq. by subst m.
Qed.

Lemma first_truthy_dup s l : first_truthy (s :: s :: l) = first_truthy (s :: l).
Proof. simpl. by destruct (truthy_str s). Qed.

Lemma first_truthy_skip l : first_truthy ("" :: l) = first_truthy l.
Proof. done. Qed.

Lemma dfs_head p : ∃ l, dfs p = p :: l.
Proof. destruct p as [m b h [ps|]]; eexists; reflexivity. Qed.

(* The two bodies, by the tree *)
Lemma extract_text p :
  text (extractEmailBodies (Some p)) =
  trim (first_truthy (provisional_text p ++
                      (decodeBase64UrlToUtf8 <$> inline_parts "text/plain" p))).
Proof.
  unfold extractEmailBodies. cbn [text]. f_equal.
  rewrite walk_dfs, fold_visit_text. unfold inline_parts.
  destruct (dfs_head p) as [l ->]. cbn [omap list_omap].
  generalize (omap (inline_of "text/plain") l). intros rest.
  unfold top_level, provisional_text, foreign_top_level_data, inline_of, truthy_id.
  destruct (body_data p) as [d|]; cbn [truthy_opt or_empty].
  2:{ by destruct (mime_is "text/plain" p). }
  destruct (truthy_str d) eqn:Hd.
  2:{ by destruct (mime_is "text/plain" p). }
  destruct (mime_is "text/plain" p) eqn:Hp.
  { cbn. by destruct (truthy_str (decodeBase64UrlToUtf8 d)). }
  by destruct (mime_is "text/html" p).
Qed.

Lemma extract_html p :
  html (extractEmailBodies (Some p)) =
  trim (first_truthy (decodeBase64UrlToUtf8 <$> inline_parts "text/html" p)).
Proof.
  unfold extractEmailBodies. cbn [html]. f_equal.
  rewrite walk_dfs, fold_visit_html. unfold inline_parts.
  destruct (dfs_head p) as [l ->]. cbn [omap list_omap].
  generalize (omap (inline_of "text/html") l). intros rest.
  unfold top_level, inline_of, truthy_id.
  destruct (body_data p) as [d|].
  2:{ by destruct (mime_is "text/html" p). }
  destruct (truthy_str d) eqn:Hd.
  2:{ by destruct (mime_is "text/html" p). }
  destruct (mime_is "text/plain" p) eqn:Hp.
  { by rewrite (mime_plain_not_html p Hp). }
  destruct (mime_is "text/html" p); [|done].
  cbn. by destruct (truthy_str (decodeBase64UrlToUtf8 d)).
Qed.

Lemma replace_base64url_hi :
  replace_all (chr "_") "/" (replace_all (chr "-") "+" "PHA-SGk8L3A-") = "PHA+SGk8L3A+".
Proof. vm_compute. reflexivity. Qed.

Lemma forwarded_email_is_made env i w ev e :
  ev ∈ events_since w (forwardMessageById env i w).2 →
  forwarded_email ev = Some e →
  ∃ msg p, messages_get env i = inr msg ∧ Gmail.payload msg = Some p ∧
           e = make_emailData p (extractEmailBodies (Some p)).
Proof.
  destruct (forwardMessageById_effect env i w) as [_ (evs & Ht & Hevs)].
  rewrite (events_since_app _ _ _ Ht).
  intros [-> | Hin]%elem_of_cons Hev; [done|].
  destruct (messages_get env i) as [err|msg]; [subst; by apply elem_of_nil in Hin|].
  destruct (Gmail.payload msg) as [p|] eqn:Hp; [|subst; by apply elem_of_nil in Hin].
  rewrite Forall_forall in Hevs. destruct (Hevs ev Hin) as [_ He].
  exists msg, p. split; [done|]. split; [done|]. by apply He.
Qed.

(** * The claims of the specification *)

(** C9.  The cursor store never throws.  Whatever the backing store holds,
    [loadState] returns a record, and it returns the empty record when the
    file is absent, unreadable or corrupt; [saveState] always returns, and a
    write failure leaves the store as it was and is logged on the console. *)
Theorem cursor_store_never_throws (env : Env) (obj : gmap string jsval) (w : World) :
  (store w = FileAbsent ∨ store w = FileUnreadable ∨ (∃ raw, store w = FileCorrupt raw) →
   loadState w = (inr ∅, w)) ∧
  (∃ o, loadState w = (inr o, w)) ∧
  (∃ w', saveState env obj w = (inr tt, w')) ∧
  (∀ e, writeFileSync env = Some e →
        saveState env obj w =
        (inr tt, {| store := store w;
                    trace := trace w ++
                             [Console Error "Failed to save state:" (message e)] |})).
Proof.
  repeat split.
  - intros H. rewrite loadState_spec.
    by destruct H as [-> | [-> | [raw ->]]].
  - eexists. apply loadState_spec.
  - eexists. apply saveState_spec.
  - intros e He. by rewrite saveState_spec, He.
Qed.

(** C10.  The read-modify-write of the cursor is a frame: after any sync
    pass, every key of the persisted record other than [historyId] reads as
    it did in the record loaded from the store, and a pass that persists a
    position leaves it under [historyId]. *)
Theorem cursor_update_keeps_other_keys (env : Env) (remote : changelog)
    (start : option jsval) (w : World) (k : string) :
  k ≠ "historyId" →
  let w' := (processHistorySince env remote start w).2 in
  stored_state (store w') !! k = stored_state (store w) !! k ∧
  (∀ v, resolves remote = true → latest_of start remote = Some v →
        truthy v = true → writeFileSync env = None →
        stored_state (store w') !! "historyId" = Some v).
Proof.
  intros Hk w'. subst w'.
  destruct (resolves remote) eqn:Hres.
  - destruct (processHistorySince_resolves env remote start w Hres)
      as (w' & E & Hs & _).
    rewrite E. simpl. rewrite Hs. unfold persisted. split.
    + destruct (latest_of start remote) as [v|]; [|done].
      destruct (truthy v); [|done].
      destruct (writeFileSync env); [done|]. simpl.
      by rewrite lookup_insert_ne.
    + intros v _ -> -> ->. simpl. by rewrite lookup_insert_eq.
  - destruct (processHistorySince_rejects env remote start w Hres)
      as (e & w' & E & Hs & _).
    rewrite E. simpl. rewrite Hs. split; [done|]. by intros.
Qed.

(** C5.  When the paging of a pass resolves, the pass returns normally
    whatever the forwards do: [forwardMessageById] is called on every
    identifier of the pending set, in insertion order, a throwing call not
    stopping the later ones, and an established (truthy) latest position is
    then handed to the cursor store, which writes it over the loaded record
    (or, when the write itself fails, leaves the store as it was). *)
Theorem cursor_persisted_whatever_forwards_do (env : Env) (remote : changelog)
    (start : option jsval) (w : World) :
  resolves remote = true →
  ∃ w', processHistorySince env remote start w =
          (inr {| count := length (pending remote);
                  latestHistoryId := latest_of start remote |}, w') ∧
        forward_calls (events_since w w') = pending remote ∧
        ∀ v, latest_of start remote = Some v → truthy v = true →
             store w' =
             match writeFileSync env with
             | None => FileRecord (<["historyId" := v]> (stored_state (store w)))
             | Some _ => store w
             end.
Proof.
  intros Hres.
  destruct (processHistorySince_resolves env remote start w Hres)
    as (w' & E & Hs & Hc).
  exists w'. split; [done|]. split; [done|].
  intros v Hv Ht. rewrite Hs. unfold persisted. by rewrite Hv, Ht.
Qed.

(** C6.  Within one pass every message identifier is forwarded at most once,
    and an identifier that some "message added" sub-event of some page
    references is forwarded exactly once, however many events reference it. *)
Theorem each_message_forwarded_once (env : Env) (remote : changelog)
    (start : option jsval) (w : World) (i : string) :
  let calls :=
    forward_calls (events_since w (processHistorySince env remote start w).2) in
  (count_occ String.string_dec calls i ≤ 1)%nat ∧
  (resolves remote = true →
   i ∈ mentions (records (pages_read remote)) →
   count_occ String.string_dec calls i = 1%nat).
Proof.
  cbv zeta. destruct (resolves remote) eqn:Hres.
  - destruct (processHistorySince_resolves env remote start w Hres)
      as (w' & E & _ & Hc).
    rewrite E. simpl. rewrite Hc.
    assert (Hnd : List.NoDup (pending remote)).
    { apply NoDup_ListNoDup, add_all_NoDup, NoDup_nil_2. }
    split.
    + by apply NoDup_count_occ.
    + intros _ Hi. apply NoDup_count_occ'; [done|].
      apply list_elem_of_In, add_all_elem. by right.
  - destruct (processHistorySince_rejects env remote start w Hres)
      as (e & w' & E & _ & Hc).
    rewrite E. simpl. rewrite Hc. simpl. split; [lia | done].
Qed.

(** C4 (as the code has it).  When the paging of a pass resolves, the latest
    position the pass returns is the identifier of the last change event that
    carries one, over all pages in log order, and the start position when no
    event carries one; it is the highest identifier of the log whenever the
    identifiers arrive in non-decreasing order; and when it is truthy and the
    write succeeds it is the cursor the store holds afterwards. *)
Theorem latest_position_is_last_event (env : Env) (remote : changelog)
    (start : option jsval) (w : World) :
  resolves remote = true →
  let ids := event_ids (records (pages_read remote)) in
  ∃ w' n,
    processHistorySince env remote start w =
      (inr {| count := n; latestHistoryId := last_position ids start |}, w') ∧
    (ids = [] → last_position ids start = start) ∧
    (∀ l, last ids = Some l → last_position ids start = Some (JStr l)) ∧
    (nondecreasing ids = true → ∀ i, i ∈ ids →
       ∃ l, l ∈ ids ∧ last_position ids start = Some (JStr l) ∧
            position_leb (JStr i) (JStr l) = true) ∧
    (∀ v, last_position ids start = Some v → truthy v = true →
          writeFileSync env = None → cursor w' = Some v).
Proof.
  intros Hres ids.
  destruct (processHistorySince_resolves env remote start w Hres)
    as (w' & E & Hs & _).
  exists w', (length (pending remote)). split; [exact E|].
  split; [by intros -> |].
  split; [intros l Hl; unfold last_position; by rewrite Hl|].
  split.
  - intros Hnd i Hi.
    destruct (nondecreasing_bounded_by_last ids i Hnd Hi) as (l & Hl & Hle).
    exists l. split; [by apply last_elem|].
    split; [unfold last_position; by rewrite Hl | done].
  - intros v Hv Ht Hw. unfold cursor. rewrite Hs.
    fold ids in Hv. unfold latest_of. fold ids. rewrite Hv.
    by apply cursor_persisted.
Qed.

(** C3 (as the code has it).  Along any sequence of sync passes in which every
    pass starts at or after the cursor persisted before it and the change log
    answers with event identifiers at or after that start position, the
    persisted cursor never decreases: of two cursors of the run, the earlier
    one is below or equal to the later one. *)
Theorem cursor_never_decreases_in_order (w : World) (ps : list pass)
    (i j : nat) (a b : option jsval) :
  in_order_run w ps →
  (i ≤ j)%nat →
  cursor_history w ps !! i = Some a →
  cursor_history w ps !! j = Some b →
  cursor_le a b.
Proof.
  revert w i j. induction ps as [|p ps IH]; intros w i j Hrun Hij Hi Hj.
  - destruct i, j; simpl in *; try done. injection Hi as <-. injection Hj as <-.
    apply cursor_le_refl.
  - destruct Hrun as [Hp Hrun]. destruct i as [|i].
    + simpl in Hi. injection Hi as <-.
      apply (cursor_history_bounded w (p :: ps)); [by split|].
      by eapply list_elem_of_lookup_2.
    + destruct j as [|j]; [lia|]. simpl in Hi, Hj.
      apply (IH (run_pass p w) i j); [done | lia | done | done].
Qed.

(** C7 (as the code has it).  When the root of the payload carries no inline
    data under a media type other than text/plain and text/html, the text the
    extractor returns is the trimmed decoding of the first plain-text part
    with inline data in depth-first order, provided that decoding is not
    empty, and the html it returns is the trimmed decoding of the first HTML
    part with inline data likewise; every later part of the type is ignored. *)
Theorem first_part_in_depth_first_order_wins (p : Gmail.MessagePart) :
  foreign_top_level_data p = false →
  (∀ d rest, inline_parts "text/plain" p = d :: rest →
             decodeBase64UrlToUtf8 d ≠ "" →
             text (extractEmailBodies (Some p)) = trim (decodeBase64UrlToUtf8 d)) ∧
  (∀ d rest, inline_parts "text/html" p = d :: rest →
             decodeBase64UrlToUtf8 d ≠ "" →
             html (extractEmailBodies (Some p)) = trim (decodeBase64UrlToUtf8 d)).
Proof.
  intros Hroot. split; intros d rest Hparts Hd.
  - rewrite extract_text, Hparts. unfold provisional_text. rewrite Hroot.
    simpl. by rewrite (truthy_str_true _ Hd).
  - rewrite extract_html, Hparts. simpl. by rewrite (truthy_str_true _ Hd).
Qed.

(** C8.  Every message [forwardMessageById] hands to a sink carries a body
    string: the extracted plain text when it is not empty, else the stripped
    HTML when an HTML body was extracted, else "(no text found)".  For a
    message whose only part is the HTML <p>Hi</p>, extraction gives the empty
    text and that HTML, and the forwarded body is "Hi". *)
Theorem forwarded_body_is_text_else_stripped_html (env : Env) (i : string)
    (w : World) (ev : event) (e : EmailData) :
  ev ∈ events_since w (forwardMessageById env i w).2 →
  forwarded_email ev = Some e →
  ∃ msg, messages_get env i = inr msg ∧
    let b := extractEmailBodies (Gmail.payload msg) in
    body e = (if truthy_str (text b) then text b
              else if truthy_str (html b) then stripHtml (html b)
              else "(no text found)") ∧
    (∀ hs, Gmail.payload msg = Some (html_only hs "PHA-SGk8L3A-") →
           Buffer_base64_utf8 "PHA+SGk8L3A+" = Some "<p>Hi</p>" →
           text b = "" ∧ html b = "<p>Hi</p>" ∧ body e = "Hi").
Proof.
  intros Hin Hev.
  destruct (forwarded_email_is_made env i w ev e Hin Hev) as (msg & p & Hg & Hp & ->).
  exists msg. split; [done|]. rewrite Hp. cbv zeta. split; [done|].
  intros hs [= ->] Hdec.
  assert (Hd : decodeBase64UrlToUtf8 "PHA-SGk8L3A-" = "<p>Hi</p>").
  { unfold decodeBase64UrlToUtf8. by rewrite replace_base64url_hi, Hdec. }
  assert (Ht : text (extractEmailBodies (Some (html_only hs "PHA-SGk8L3A-"))) = "").
  { rewrite extract_text. reflexivity. }
  assert (Hh : html (extractEmailBodies (Some (html_only hs "PHA-SGk8L3A-")))
               = "<p>Hi</p>").
  { rewrite extract_html.
    change (inline_parts "text/html" (html_only hs "PHA-SGk8L3A-"))
      with ["PHA-SGk8L3A-"].
    cbn [fmap list_fmap]. rewrite Hd. vm_compute. reflexivity. }
  split; [done|]. split; [done|].
  cbn [body make_emailData]. unfold body_of. rewrite Ht, Hh.
  vm_compute. reflexivity.
Qed.

(** C2 (as the code has it).  For a push envelope that carries a truthy
    position hint, each of the two push routes acknowledges and then calls the
    change log from the persisted cursor when the store holds a truthy one,
    and from the hinted position otherwise. *)
Theorem push_starts_from_persisted_cursor (env : Env) (remote : changelog)
    (hint : jsval) (w : World) :
  truthy hint = true →
  let start := if truthy_opt truthy (cursor w) then cursor w else Some hint in
  (∃ rest, trace (gmail_push env remote (Notification (Some hint)) w).2 =
           trace w ++ Respond 204 ::
             HistoryList (to_String_opt start) None :: rest) ∧
  (∃ rest, trace (gmail_notify env remote (Notification (Some hint)) w).2 =
           trace w ++ Respond 204 ::
             HistoryList (to_String_opt start) None :: rest).
Proof.
  intros Hh start. split; by apply push_route_first_call.
Qed.

(** * More of the code *)

(** ** The sinks, step by step *)

Lemma sseBroadcast_run clients ev source i emailData w :
  sseBroadcast clients ev source i emailData w =
  (inr tt, {| store := store w;
              trace := trace w ++ frames clients ev source i emailData |}).
Proof.
  revert w. induction clients as [|res rest IH]; intros w.
  { simpl. unfold frames. simpl. rewrite app_nil_r. by destruct w. }
  cbn [sseBroadcast]. unfold frames. cbn [List.filter].
  destruct (accepts res) eqn:Hacc.
  - rewrite (bind_inr _ _ w tt
               {| store := store w;
                  trace := trace w ++ [SseFrame (client res) ev source i emailData] |}).
    2:{ unfold try_catch, emit. done. }
    rewrite IH. simpl. unfold frames. by rewrite <- app_assoc.
  - rewrite (bind_inr _ _ w tt w).
    2:{ unfold try_catch, throw. done. }
    by rewrite IH.
Qed.

Lemma post_ok env url payload w :
  axios_post env url payload = None →
  post env url payload w =
  (inr tt, {| store := store w; trace := trace w ++ [AxiosPost url payload] |}).
Proof.
  intros H. unfold post. rewrite (bind_inr (emit _) _ w tt _ eq_refl). by rewrite H.
Qed.

Lemma post_fails env url payload w e :
  axios_post env url payload = Some e →
  post env url payload w =
  (inl e, {| store := store w; trace := trace w ++ [AxiosPost url payload] |}).
Proof.
  intros H. unfold post. rewrite (bind_inr (emit _) _ w tt _ eq_refl). by rewrite H.
Qed.

Lemma ensureContainerSession_run env w :
  ensureContainerSession env w =
  (inr tt,
   match OUTBOUND_POST_URL env with
   | Some base =>
       if truthy_str base then
         {| store := store w;
            trace := trace w ++
              [ AxiosPost (create_url base) (PostSession (CONTAINER_SESSION_ID env));
                session_line env base ] |}
       else w
   | None => w
   end).
Proof.
  unfold ensureContainerSession, session_line.
  destruct (OUTBOUND_POST_URL env) as [base|]; [|done].
  destruct (truthy_str base); [|done].
  unfold try_catch, create_url.
  set (url := strip_trailing_slash base +:+ CONTAINER_CREATE_PATH).
  set (payload := PostSession (CONTAINER_SESSION_ID env)).
  destruct (axios_post env url payload) as [err|] eqn:Hpost.
  - rewrite (bind_inl _ _ _ _ _ (post_fails env url payload w err Hpost)).
    case_bool_decide; unfold emit; simpl; by rewrite <- app_assoc.
  - rewrite (bind_inr _ _ _ _ _ (post_ok env url payload w Hpost)).
    unfold emit. simpl. by rewrite <- app_assoc.
Qed.

Lemma postEmailToContainerAPI_run env emailData w :
  postEmailToContainerAPI env emailData w =
  (inr tt, {| store := store w; trace := trace w ++ relay_events env emailData |}).
Proof.
  unfold postEmailToContainerAPI, relay_events.
  pose proof (ensureContainerSession_run env w) as Hsession.
  destruct (OUTBOUND_POST_URL env) as [base|];
    [|rewrite app_nil_r; by destruct w].
  destruct (truthy_str base); [|rewrite app_nil_r; by destruct w].
  rewrite (bind_inr _ _ _ _ _ Hsession).
  unfold try_catch, query_line. fold (query_url env base).
  set (url := query_url env base).
  set (payload := PostQuery (buildEmailPrompt emailData) false).
  destruct (axios_post env url payload) as [err|] eqn:Hpost.
  - rewrite (bind_inl _ _ _ _ _ (post_fails env url payload _ err Hpost)).
    unfold emit. simpl. by rewrite <- !app_assoc.
  - rewrite (bind_inr _ _ _ _ _ (post_ok env url payload _ Hpost)).
    unfold emit. simpl. by rewrite <- !app_assoc.
Qed.

(* The three sinks in a row, as [forwardMessageById] and the fetch route run
   them before they return [r] *)
Lemma fan_out_run {A} env source i emailData (r : A) w :
  (try_catch (sseBroadcast (sseClients env) "email" source i emailData)
             (λ _, mret tt);;
   when (truthy_opt truthy_str (NGROK_ENDPOINT env))
        (post env (or_empty (NGROK_ENDPOINT env)) (PostEmail emailData));;
   postEmailToContainerAPI env emailData;;
   mret r) w =
  (match webhook_error env emailData with
   | Some e => inl e
   | None => inr r
   end,
   {| store := store w;
      trace := trace w ++ fan_out_events env source i emailData |}).
Proof.
  unfold fan_out_events, webhook_error, webhook_events.
  erewrite bind_inr; [|unfold try_catch; rewrite sseBroadcast_run; reflexivity].
  destruct (truthy_opt truthy_str (NGROK_ENDPOINT env)); cbn [when].
  - destruct (axios_post env (or_empty (NGROK_ENDPOINT env)) (PostEmail emailData))
      as [e|] eqn:Hpost.
    + erewrite bind_inl; [|by apply post_fails].
      simpl. by rewrite ?app_nil_r, <- ?app_assoc.
    + erewrite bind_inr; [|by apply post_ok].
      erewrite bind_inr; [|apply postEmailToContainerAPI_run].
      simpl. by rewrite ?app_nil_r, <- ?app_assoc.
  - erewrite bind_inr; [|reflexivity].
    erewrite bind_inr; [|apply postEmailToContainerAPI_run].
    simpl. by rewrite ?app_nil_r, <- ?app_assoc.
Qed.

(* One forward, by the answers of the collaborators *)
Lemma forwardMessageById_run env i w :
  forwardMessageById env i w =
  match messages_get env i with
  | inl e => (inl e, {| store := store w; trace := trace w ++ [MessagesGet i] |})
  | inr msg =>
      match Gmail.payload msg with
      | None =>
          (inl {| status := None;
                  message := "Cannot read properties of undefined (reading 'headers')" |},
           {| store := store w; trace := trace w ++ [MessagesGet i] |})
      | Some p =>
          let emailData := make_emailData p (extractEmailBodies (Some p)) in
          (match webhook_error env emailData with
           | Some e => inl e
           | None => inr emailData
           end,
           {| store := store w;
              trace := trace w ++ MessagesGet i :: fan_out_events env "push" i emailData |})
      end
  end.
Proof.
  unfold forwardMessageById.
  rewrite (bind_inr (emit _) _ w tt _ eq_refl).
  destruct (messages_get env i) as [e|msg].
  { by rewrite (bind_inl (liftE _) _ _ e _ eq_refl). }
  rewrite (bind_inr (liftE _) _ _ msg _ eq_refl).
  destruct (Gmail.payload msg) as [p|]; [|done].
  cbv zeta. rewrite fan_out_run. simpl. by rewrite <- app_assoc.
Qed.

Lemma frames_kind clients ev source i emailData :
  Forall sink_or_console (frames clients ev source i emailData).
Proof.
  unfold frames. induction (List.filter accepts clients); by constructor.
Qed.

Lemma relay_events_kind env emailData :
  Forall sink_or_console (relay_events env emailData).
Proof.
  unfold relay_events, session_line, query_line.
  destruct (OUTBOUND_POST_URL env) as [base|]; [|done].
  destruct (truthy_str base); [|done].
  repeat constructor.
  - destruct (axios_post env (create_url base) _); [case_bool_decide|]; done.
  - destruct (axios_post env (query_url env base) _); done.
Qed.

Lemma fan_out_events_kind env source i emailData :
  Forall sink_or_console (fan_out_events env source i emailData).
Proof.
  unfold fan_out_events, webhook_events.
  apply Forall_app. split; [apply frames_kind|].
  apply Forall_app. split.
  - destruct (truthy_opt truthy_str (NGROK_ENDPOINT env)); by repeat constructor.
  - destruct (webhook_error env emailData); [done | apply relay_events_kind].
Qed.

(* What one forward leaves in the trace *)
Lemma forwardMessageById_events env i w :
  store (forwardMessageById env i w).2 = store w ∧
  ∃ evs, trace (forwardMessageById env i w).2 = trace w ++ MessagesGet i :: evs ∧
         Forall sink_or_console evs.
Proof.
  rewrite forwardMessageById_run.
  destruct (messages_get env i) as [e|msg]; [by split; [|exists []]|].
  destruct (Gmail.payload msg) as [p|]; [|by split; [|exists []]].
  cbv zeta. split; [done|]. eexists. split; [reflexivity|].
  apply fan_out_events_kind.
Qed.

Lemma forward_all_events env added w :
  ∃ evs, forward_all env added w =
           (inr tt, {| store := store w; trace := trace w ++ evs |}) ∧
         Forall forward_event evs.
Proof.
  revert w. induction added as [|i rest IH]; intros w; cbn [forward_all].
  { exists []. rewrite app_nil_r. by destruct w. }
  destruct (forwardMessageById_events env i w) as [Hs (evs & Ht & Hk)].
  assert (Hk' : Forall forward_event (MessagesGet i :: evs)).
  { constructor; [by left|]. eapply Forall_impl; [exact Hk|]. by right. }
  destruct (forwardMessageById env i w) as [[e|a] w1] eqn:E; simpl in Hs, Ht.
  - erewrite bind_inr.
    2:{ unfold try_catch. erewrite bind_inl; [|exact E]. reflexivity. }
    match goal with |- context [ forward_all env rest ?w2 ] =>
      destruct (IH w2) as (evs' & E' & Hk'') end.
    rewrite E'. simpl. rewrite Hs, Ht.
    eexists. split; [by rewrite <- !app_assoc|].
    apply Forall_app. split; [done|]. constructor; [by right | done].
  - erewrite bind_inr.
    2:{ unfold try_catch. erewrite bind_inr; [|exact E]. reflexivity. }
    destruct (IH w1) as (evs' & E' & Hk'').
    rewrite E'. rewrite Hs, Ht.
    eexists. split; [by rewrite <- !app_assoc|].
    apply Forall_app. by split.
Qed.

Lemma persist_cursor_events env latest w :
  ∃ evs, persist_cursor env latest w =
           (inr tt, {| store := persisted env latest (store w);
                       trace := trace w ++ evs |}) ∧
         Forall sink_or_console evs.
Proof.
  unfold persist_cursor, persisted.
  destruct w as [s t]. destruct latest as [v|]; simpl.
  2:{ exists []. by rewrite app_nil_r. }
  destruct (truthy v).
  2:{ exists []. by rewrite app_nil_r. }
  rewrite (bind_inr loadState _ _ _ _ (loadState_spec _)).
  rewrite saveState_spec. simpl.
  destruct (writeFileSync env).
  - eexists [_]. split; [done|]. by repeat constructor.
  - exists []. by rewrite app_nil_r.
Qed.

(* The paging of one pass, call by call *)
Lemma list_pages_run start remote tok latest added w :
  list_pages start remote tok (latest, added) w =
  (match list_error remote with
   | Some e => inl e
   | None => inr (last_position (event_ids (records (pages_read remote))) latest,
                  add_all (mentions (records (pages_read remote))) added)
   end,
   {| store := store w;
      trace := trace w ++ list_calls (to_String_opt start) tok remote |}).
Proof.
  revert tok latest added w.
  induction remote as [e|resp next IH]; intros tok latest added w;
    cbn [list_pages pages_read list_error list_calls].
  - by rewrite (bind_inr (emit _) _ w tt _ eq_refl).
  - rewrite (bind_inr (emit _) _ w tt _ eq_refl).
    rewrite fold_history_spec.
    destruct (truthy_opt truthy_str (Gmail.nextPageToken resp)).
    + rewrite IH. simpl.
      rewrite ?records_cons, event_ids_app, mentions_app.
      rewrite last_position_app, add_all_app. by rewrite <- app_assoc.
    + by rewrite records_cons, !app_nil_r.
Qed.

Lemma list_error_resolves remote :
  list_error remote = None ↔ resolves remote = true.
Proof.
  induction remote as [e|resp next IH]; simpl; [done|].
  by destruct (truthy_opt truthy_str (Gmail.nextPageToken resp)).
Qed.

(* One pass, by the answers of the collaborators *)
Lemma processHistorySince_run env remote start w :
  match list_error remote with
  | Some e =>
      processHistorySince env remote start w =
      (inl e, {| store := store w;
                 trace := trace w ++ list_calls (to_String_opt start) None remote |})
  | None =>
      ∃ rest,
        processHistorySince env remote start w =
        (inr {| count := length (pending remote);
                latestHistoryId := latest_of start remote |},
         {| store := persisted env (latest_of start remote) (store w);
            trace := trace w ++ list_calls (to_String_opt start) None remote ++ rest |}) ∧
        Forall forward_event rest
  end.
Proof.
  unfold processHistorySince.
  pose proof (list_pages_run start remote None start [] w) as E.
  destruct (list_error remote) as [e|].
  { by rewrite (bind_inl _ _ _ _ _ E). }
  rewrite (bind_inr _ _ _ _ _ E). fold (pending remote) (latest_of start remote).
  match type of E with _ = (_, ?w0) => set (w1 := w0) end.
  destruct (forward_all_events env (pending remote) w1) as (evs2 & E2 & Hk2).
  rewrite (bind_inr _ _ _ _ _ E2).
  match type of E2 with _ = (_, ?w0) => set (w2 := w0) end.
  destruct (persist_cursor_events env (latest_of start remote) w2) as (evs3 & E3 & Hk3).
  rewrite (bind_inr _ _ _ _ _ E3).
  exists (evs2 ++ evs3). split.
  - unfold mret, M_ret. simpl. by rewrite <- !app_assoc.
  - apply Forall_app. split; [done|].
    eapply Forall_impl; [exact Hk3|]. by right.
Qed.

Lemma list_calls_kind s tok remote :
  Forall (λ ev, ∃ t, ev = HistoryList s t) (list_calls s tok remote).
Proof.
  revert tok. induction remote as [e|resp next IH]; intros tok; cbn [list_calls].
  - constructor; [by eexists | done].
  - constructor; [by eexists|].
    destruct (truthy_opt truthy_str (Gmail.nextPageToken resp)); [apply IH | done].
Qed.

Lemma forward_event_not_Respond ev : forward_event ev → ¬ is_Respond ev.
Proof. intros [H|H] Hr; by destruct ev. Qed.

Lemma forward_event_not_HistoryList ev : forward_event ev → ¬ is_HistoryList ev.
Proof. intros [H|H] Hr; by destruct ev. Qed.

Lemma push_route_run route env remote req w :
  ∃ rest,
    push_route route env remote req w =
    (inr tt, {| store := store_after_push env remote req (store w);
                trace := trace w ++ Respond 204 :: rest |}) ∧
    Forall (λ ev, ¬ is_Respond ev) rest.
Proof.
  unfold push_route, store_after_push.
  rewrite (bind_inr (emit _) _ w tt _ eq_refl). unfold try_catch.
  set (w1 := {| store := store w; trace := trace w ++ [Respond 204] |}).
  destruct req as [|e|[v|]].
  - exists []. by rewrite <- ?app_assoc.
  - eexists [_]. unfold throw, emit. simpl. split; [by rewrite <- ?app_assoc|].
    apply Forall_singleton. by intros [].
  - unfold truthy_opt. destruct (truthy v).
    2:{ exists []. by rewrite <- ?app_assoc. }
    rewrite (bind_inr loadState _ _ _ _ (loadState_spec _)). simpl store.
    set (start := start_position (stored_state (store w)) (Some v)).
    pose proof (processHistorySince_run env remote start w1) as Hrun.
    destruct (list_error remote) as [e|].
    + rewrite (bind_inl _ _ _ _ _ Hrun). unfold emit. simpl.
      eexists. split; [by rewrite <- ?app_assoc|].
      apply Forall_app. split; [|apply Forall_singleton; by intros []].
      eapply Forall_impl; [apply list_calls_kind|]. intros ev [t ->] [].
    + destruct Hrun as (rest & Hrun & Hk).
      rewrite (bind_inr _ _ _ _ _ Hrun). unfold mret, M_ret. simpl.
      eexists. split; [by rewrite <- ?app_assoc|].
      apply Forall_app. split.
      * eapply Forall_impl; [apply list_calls_kind|]. intros ev [t ->] [].
      * eapply Forall_impl; [exact Hk|]. apply forward_event_not_Respond.
  - exists []. by rewrite <- ?app_assoc.
Qed.

Lemma list_calls_pages s tok remote :
  list_calls s tok remote =
  HistoryList s tok ::
  ((λ resp, HistoryList s (Gmail.nextPageToken resp)) <$>
     List.filter has_token (pages_read remote)).
Proof.
  revert tok. induction remote as [e|resp next IH]; intros tok;
    cbn [list_calls pages_read]; [done|].
  f_equal. cbn [List.filter]. unfold has_token at 1.
  destruct (truthy_opt truthy_str (Gmail.nextPageToken resp)); [|done].
  by rewrite IH.
Qed.



(** ** The sinks *)

(** X1.  A broadcast never throws and never touches the store, and it writes
    one frame to every subscriber that accepts it, in subscription order: a
    subscriber whose write throws does not keep the later ones from their
    frame. *)
Theorem broadcast_reaches_every_accepting_subscriber (clients : list SseClient)
    (ev source i : string) (emailData : EmailData) (w : World) :
  ∃ w', sseBroadcast clients ev source i emailData w = (inr tt, w') ∧
        store w' = store w ∧
        events_since w w' =
        (λ res, SseFrame (client res) ev source i emailData)
          <$> List.filter accepts clients.
Proof.
  eexists. split; [apply sseBroadcast_run|]. split; [done|].
  by apply events_since_app.
Qed.

(** X2.  Creating the container session never throws and never touches the
    store.  When the create request is rejected, that is only logged: a 409
    Conflict as "session exists" at the log level, any other error as a
    warning. *)
Theorem session_creation_is_never_fatal (env : Env) (w : World) :
  ∃ w', ensureContainerSession env w = (inr tt, w') ∧
        store w' = store w ∧
        ∀ base err,
          OUTBOUND_POST_URL env = Some base → truthy_str base = true →
          axios_post env (create_url base) (PostSession (CONTAINER_SESSION_ID env))
            = Some err →
          events_since w w' =
          [ AxiosPost (create_url base) (PostSession (CONTAINER_SESSION_ID env));
            if bool_decide (status err = Some 409)
            then Console Log "Container session exists:" (CONTAINER_SESSION_ID env)
            else Console Warn "Container session create failed:"
                   (status_or_message err) ].
Proof.
  eexists. split; [apply ensureContainerSession_run|]. split.
  - destruct (OUTBOUND_POST_URL env) as [base|]; [|done]. by destruct (truthy_str base).
  - intros base err -> -> Hpost. erewrite events_since_app; [|reflexivity].
    unfold session_line. by rewrite Hpost.
Qed.

(** X3.  The agent relay never throws and never touches the store.  Without a
    configured URL it does nothing at all; with one, the query carrying the
    prompt of the message is posted whatever became of the session creation
    before it. *)
Theorem agent_relay_never_throws_and_always_queries (env : Env)
    (emailData : EmailData) (w : World) :
  ∃ w', postEmailToContainerAPI env emailData w = (inr tt, w') ∧
        store w' = store w ∧
        (truthy_opt truthy_str (OUTBOUND_POST_URL env) = false →
         events_since w w' = []) ∧
        (∀ base, OUTBOUND_POST_URL env = Some base → truthy_str base = true →
           AxiosPost (query_url env base)
             (PostQuery (buildEmailPrompt emailData) false) ∈ events_since w w').
Proof using Type.
  eexists. split; [apply postEmailToContainerAPI_run|]. split; [done|].
  erewrite events_since_app; [|reflexivity]. unfold relay_events. split.
  - destruct (OUTBOUND_POST_URL env) as [base|]; [|done]. simpl. by intros ->.
  - intros base -> ->. clear Buffer_base64_utf8. set_solver.
Qed.

(** ** Forwarding one message *)

(** X4.  [forwardMessageById] throws for three reasons only: the message
    fetch rejects, the fetched message has no payload, or the configured
    legacy webhook rejects the post; the error is then that of the fetch or of
    the webhook.  A failing subscriber or a failing agent API never makes it
    throw. *)
Theorem forward_throws_only_for_fetch_payload_or_webhook (env : Env) (i : string)
    (w w' : World) (e : exn) :
  forwardMessageById env i w = (inl e, w') →
  messages_get env i = inl e ∨
  (∃ msg, messages_get env i = inr msg ∧ Gmail.payload msg = None) ∨
  (∃ msg p, messages_get env i = inr msg ∧ Gmail.payload msg = Some p ∧
            truthy_opt truthy_str (NGROK_ENDPOINT env) = true ∧
            axios_post env (or_empty (NGROK_ENDPOINT env))
              (PostEmail (make_emailData p (extractEmailBodies (Some p)))) = Some e).
Proof.
  rewrite forwardMessageById_run.
  destruct (messages_get env i) as [e'|msg]; [intros [= -> _]; by left|].
  destruct (Gmail.payload msg) as [p|] eqn:Hp; [|intros _; right; left; by exists msg].
  cbv zeta. unfold webhook_error.
  destruct (truthy_opt truthy_str (NGROK_ENDPOINT env)); [|done].
  destruct (axios_post env _ _) as [e'|] eqn:Hpost; [|done].
  intros [= -> _]. right; right. by exists msg, p.
Qed.

(** X5.  A message that cannot be fetched reaches no sink: the forward rejects
    with the error of the fetch, and the fetch is all that happened. *)
Theorem unfetchable_message_reaches_no_sink (env : Env) (i : string) (w : World)
    (e : exn) :
  messages_get env i = inl e →
  forwardMessageById env i w =
  (inl e, {| store := store w; trace := trace w ++ [MessagesGet i] |}).
Proof. intros H. by rewrite forwardMessageById_run, H. Qed.

(** X6.  When the legacy webhook does not reject, the forward returns the
    message it built and leaves the store alone, and the sinks are served in
    a fixed order with that one message: a frame for every accepting
    subscriber, then the webhook post if an endpoint is configured, then the
    agent relay, whose own failures change nothing of the result. *)
Theorem fan_out_serves_the_sinks_in_order (env : Env) (i : string) (w : World)
    (msg : Gmail.Message) (p : Gmail.MessagePart) :
  messages_get env i = inr msg →
  Gmail.payload msg = Some p →
  let emailData := make_emailData p (extractEmailBodies (Some p)) in
  webhook_error env emailData = None →
  ∃ w', forwardMessageById env i w = (inr emailData, w') ∧
        store w' = store w ∧
        events_since w w' =
        MessagesGet i ::
          frames (sseClients env) "email" "push" i emailData ++
          webhook_events env emailData ++ relay_events env emailData.
Proof.
  intros Hmsg Hp emailData Hhook.
  rewrite forwardMessageById_run, Hmsg, Hp. cbv zeta. fold emailData.
  rewrite Hhook. eexists. split; [reflexivity|]. split; [done|].
  erewrite events_since_app; [|reflexivity]. unfold fan_out_events. by rewrite Hhook.
Qed.

(** ** One sync pass *)

(** X7.  When a list call of the paging rejects, the pass rejects with that
    error before anything else happens: no message is fetched or forwarded,
    nothing is logged, and the store, hence the cursor, is left as it was. *)
Theorem pass_aborts_when_listing_fails (env : Env) (remote : changelog)
    (start : option jsval) (w : World) (e : exn) :
  list_error remote = Some e →
  ∃ calls, processHistorySince env remote start w =
             (inl e, {| store := store w; trace := trace w ++ calls |}) ∧
           Forall is_HistoryList calls.
Proof.
  intros He. pose proof (processHistorySince_run env remote start w) as Hrun.
  rewrite He in Hrun. eexists. split; [exact Hrun|].
  eapply Forall_impl; [apply list_calls_kind|]. by intros ev [t ->].
Qed.

(** X8.  The list calls of a pass all carry the start position of the pass,
    as a string: the first without a page token, then one call for every page
    read that carried a token, with that token; and they come before
    everything else the pass does. *)
Theorem paging_follows_the_page_tokens (env : Env) (remote : changelog)
    (start : option jsval) (w : World) :
  ∃ rest,
    events_since w (processHistorySince env remote start w).2 =
    HistoryList (to_String_opt start) None ::
      ((λ resp, HistoryList (to_String_opt start) (Gmail.nextPageToken resp))
         <$> List.filter has_token (pages_read remote)) ++ rest ∧
    Forall (λ ev, ¬ is_HistoryList ev) rest.
Proof.
  pose proof (processHistorySince_run env remote start w) as Hrun.
  rewrite list_calls_pages in Hrun.
  destruct (list_error remote) as [e|].
  - exists []. rewrite Hrun. split; [|done].
    erewrite events_since_app; [|reflexivity]. by rewrite app_nil_r.
  - destruct Hrun as (rest & -> & Hk). exists rest. split.
    + erewrite events_since_app; [|reflexivity]; done.
    + eapply Forall_impl; [exact Hk|]. apply forward_event_not_HistoryList.
Qed.


(** X10.  A pass started from the persisted cursor that finds no change event
    and no added message forwards nothing and leaves the persisted record
    exactly as it was, whether or not the write succeeds. *)
Theorem pass_without_news_changes_nothing (env : Env) (remote : changelog)
    (o : gmap string jsval) (v : jsval) (w : World) :
  store w = FileRecord o →
  o !! "historyId" = Some v →
  truthy v = true →
  resolves remote = true →
  event_ids (records (pages_read remote)) = [] →
  mentions (records (pages_read remote)) = [] →
  ∃ w', processHistorySince env remote (Some v) w =
          (inr {| count := 0; latestHistoryId := Some v |}, w') ∧
        store w' = store w ∧
        forward_calls (events_since w w') = [].
Proof.
  intros Hs Ho Hv Hres Hids Hms.
  destruct (processHistorySince_resolves env remote (Some v) w Hres)
    as (w' & E & Hs' & Hc).
  unfold pending, latest_of in *. rewrite Hids, Hms in *. simpl in *.
  exists w'. split; [done|]. split; [|done].
  rewrite Hs'. unfold persisted, last_position. simpl. rewrite Hv.
  destruct (writeFileSync env); [done|].
  rewrite Hs. simpl. by rewrite insert_id.
Qed.

(** X11.  The persisted cursor stays truthy: a pass never replaces a truthy
    cursor by a falsy one or removes it, whatever the change log answers. *)
Theorem persisted_cursor_stays_truthy (env : Env) (remote : changelog)
    (start : option jsval) (w : World) :
  truthy_opt truthy (cursor w) = true →
  truthy_opt truthy (cursor (processHistorySince env remote start w).2) = true.
Proof.
  intros Hc. pose proof (processHistorySince_run env remote start w) as Hrun.
  destruct (list_error remote) as [e|]; [by rewrite Hrun|].
  destruct Hrun as (rest & -> & _). unfold cursor. simpl. unfold persisted.
  destruct (latest_of start remote) as [v|]; [|done].
  destruct (truthy v) eqn:Hv; [|done].
  destruct (writeFileSync env); [done|]. simpl. by rewrite lookup_insert_eq.
Qed.

(** X12.  When the state file is absent, unreadable or corrupt, a pass that
    persists a position replaces it by a fresh record that holds the cursor
    and nothing else. *)
Theorem unreadable_state_is_replaced_by_a_fresh_record (env : Env)
    (remote : changelog) (start : option jsval) (w : World) (v : jsval) :
  (∀ o, store w ≠ FileRecord o) →
  resolves remote = true →
  latest_of start remote = Some v →
  truthy v = true →
  writeFileSync env = None →
  store (processHistorySince env remote start w).2 = FileRecord {[ "historyId" := v ]}.
Proof.
  intros Hs Hres Hl Hv Hw.
  destruct (processHistorySince_resolves env remote start w Hres)
    as (w' & E & Hs' & _).
  rewrite E. simpl. rewrite Hs'. unfold persisted. rewrite Hl, Hv, Hw.
  destruct (store w) as [| |raw|o]; try done. by destruct (Hs o).
Qed.

(** ** The push routes *)

(** X13.  A push route never throws and answers exactly once, before any
    other effect: whatever the request body and whatever the collaborators
    do, it returns normally, its first event is the 204 response, and no
    other response follows. *)
Theorem push_routes_acknowledge_once_and_never_throw (env : Env)
    (remote : changelog) (req : push_body) (w : World) :
  (∃ w' rest, gmail_push env remote req w = (inr tt, w') ∧
              trace w' = trace w ++ Respond 204 :: rest ∧
              Forall (λ ev, ¬ is_Respond ev) rest) ∧
  (∃ w' rest, gmail_notify env remote req w = (inr tt, w') ∧
              trace w' = trace w ++ Respond 204 :: rest ∧
              Forall (λ ev, ¬ is_Respond ev) rest).
Proof.
  split.
  - destruct (push_route_run "/gmail/push" env remote req w) as (rest & E & Hk).
    eexists _, rest. split; [exact E|]. by split.
  - destruct (push_route_run "/gmail-notify" env remote req w) as (rest & E & Hk).
    eexists _, rest. split; [exact E|]. by split.
Qed.

(** X14.  A push without a usable hint is discarded after the
    acknowledgement: no data, no historyId, or a falsy one leave the store
    and the remote alone; a body that cannot be decoded is logged as a
    handler error and nothing more. *)
Theorem push_without_truthy_hint_does_nothing (env : Env) (remote : changelog)
    (req : push_body) (w : World) :
  (req = NoMessageData ∨ req = Notification None ∨
   ∃ v, req = Notification (Some v) ∧ truthy v = false) →
  gmail_push env remote req w =
    (inr tt, {| store := store w; trace := trace w ++ [Respond 204] |}) ∧
  ∀ e, gmail_push env remote (Undecodable e) w =
       (inr tt, {| store := store w;
                   trace := trace w ++
                     [Respond 204;
                      Console Error "/gmail/push handler error:" (message e)] |}).
Proof.
  intros Hreq. split.
  - unfold gmail_push, push_route.
    rewrite (bind_inr (emit _) _ w tt _ eq_refl). unfold try_catch.
    destruct Hreq as [-> | [-> | (v & -> & Hv)]]; [done | done |].
    unfold truthy_opt. by rewrite Hv.
  - intros e. unfold gmail_push, push_route.
    rewrite (bind_inr (emit _) _ w tt _ eq_refl). unfold try_catch, throw, emit.
    simpl. by rewrite <- app_assoc.
Qed.

(** X15.  A push whose change-log listing fails is contained by the route:
    it returns normally, logs the error of the list call as a handler error,
    forwards nothing and leaves the store, hence the cursor, untouched, so
    that the next push starts from the same position. *)
Theorem push_with_failed_listing_keeps_the_cursor (env : Env) (remote : changelog)
    (hint : jsval) (w : World) (e : exn) :
  truthy hint = true →
  list_error remote = Some e →
  ∃ w', gmail_push env remote (Notification (Some hint)) w = (inr tt, w') ∧
        store w' = store w ∧
        forward_calls (events_since w w') = [] ∧
        last (trace w') = Some (Console Error "/gmail/push handler error:" (message e)).
Proof.
  intros Hh He. unfold gmail_push, push_route.
  rewrite (bind_inr (emit _) _ w tt _ eq_refl). unfold try_catch.
  unfold truthy_opt. rewrite Hh.
  rewrite (bind_inr loadState _ _ _ _ (loadState_spec _)). simpl store.
  set (start := start_position (stored_state (store w)) (Some hint)).
  set (w1 := {| store := store w; trace := trace w ++ [Respond 204] |}).
  pose proof (processHistorySince_run env remote start w1) as Hrun.
  rewrite He in Hrun. rewrite (bind_inl _ _ _ _ _ Hrun).
  eexists. split; [reflexivity|]. simpl. split; [done|]. split.
  - rewrite (events_since_app w _
               ([Respond 204] ++ list_calls (to_String_opt start) None remote ++
                [Console Error "/gmail/push handler error:" (message e)])).
    2:{ simpl. by rewrite <- !app_assoc. }
    rewrite !forward_calls_app. simpl.
    rewrite (forward_calls_HistoryList (list_calls _ _ _)); [done|].
    eapply Forall_impl; [apply list_calls_kind|]. by intros ev [t ->].
  - by rewrite last_snoc.
Qed.

(** ** Replacing single characters *)

Lemma replace_all_chr c by_ s : replace_all (chr c) by_ s = subst_char c by_ s.
Proof.
  unfold replace_all. induction s as [|a t IH]; [done|].
  cbn [replace_from subst_char].
  change (match_prefix (chr c) (String a t))
    with (if Ascii.eqb c a then Some t else None).
  destruct (Ascii.eqb c a); [|by rewrite IH].
  assert (Hlt : Nat.ltb (String.length t) (String.length (String a t)) = true).
  { apply Nat.ltb_lt. simpl. lia. }
  rewrite Hlt.
  replace (String.length (String a t) - String.length t - 1)%nat with 0%nat
    by (simpl; lia).
  by rewrite IH.
Qed.

Lemma append_cons (a : ascii) (t s : string) : String a t +:+ s = String a (t +:+ s).
Proof. reflexivity. Qed.

Lemma append_assoc (s1 s2 s3 : string) : s1 +:+ (s2 +:+ s3) = (s1 +:+ s2) +:+ s3.
Proof. induction s1 as [|a t IH]; [done|]. by rewrite !append_cons, IH. Qed.

Lemma subst_char_app c by_ s1 s2 :
  subst_char c by_ (s1 +:+ s2) = subst_char c by_ s1 +:+ subst_char c by_ s2.
Proof.
  induction s1 as [|a t IH]; [done|]. rewrite append_cons. cbn [subst_char].
  by rewrite IH, append_assoc.
Qed.

Lemma occurs_app c s1 s2 : occurs c (s1 +:+ s2) = (occurs c s1 || occurs c s2)%bool.
Proof.
  induction s1 as [|a t IH]; [done|]. rewrite append_cons. cbn [occurs].
  rewrite IH. by destruct (Ascii.eqb c a).
Qed.

Lemma subst_char_absent c by_ s : occurs c s = false → subst_char c by_ s = s.
Proof.
  induction s as [|a t IH]; [done|]. simpl.
  destruct (Ascii.eqb c a); [done|]. simpl. intros H. by rewrite IH.
Qed.

Lemma escape_char_subst a :
  subst_char "'" "&#39;"
    (subst_char (byte_of 34) "&quot;"
       (subst_char ">" "&gt;"
          (subst_char "<" "&lt;" (subst_char "&" "&amp;" (String a EmptyString)))))
  = escape_char a.
Proof. destruct a as [[] [] [] [] [] [] [] []]; vm_compute; reflexivity. Qed.

Lemma escapeHtml_each s : escapeHtml (Some s) = escape_each s.
Proof.
  unfold escapeHtml. cbn [or_empty]. rewrite !replace_all_chr.
  induction s as [|a t IH]; [done|].
  cbn [escape_each]. rewrite <- IH, <- escape_char_subst, <- !subst_char_app.
  reflexivity.
Qed.

Lemma escape_char_markup_free a c :
  c = "<"%char ∨ c = ">"%char ∨ c = byte_of 34 ∨ c = "'"%char →
  occurs c (escape_char a) = false.
Proof.
  intros Hc.
  destruct a as [[] [] [] [] [] [] [] []];
    destruct Hc as [->|[->|[->| ->]]]; vm_compute; reflexivity.
Qed.

(** ** The dashboard's escaping *)

(** X16.  [escapeHtml] escapes every character exactly once: its five
    replacements in a row amount to replacing each of & < > " ' by its entity
    simultaneously, so an ampersand that an entity brings in is never escaped
    again.  The result contains none of < > " ', a string without the five
    characters is returned as it is, and a missing string gives the empty one. *)
Theorem escapeHtml_escapes_each_character_once (s : string) :
  escapeHtml (Some s) = escape_each s ∧
  (∀ c, c = "<"%char ∨ c = ">"%char ∨ c = byte_of 34 ∨ c = "'"%char →
        occurs c (escapeHtml (Some s)) = false) ∧
  (occurs "&" s = false → occurs "<" s = false → occurs ">" s = false →
   occurs (byte_of 34) s = false → occurs "'" s = false →
   escapeHtml (Some s) = s) ∧
  escapeHtml None = "".
Proof.
  split; [apply escapeHtml_each|]. split; [|split; [|done]].
  - intros c Hc. rewrite escapeHtml_each.
    induction s as [|a t IH]; [done|].
    cbn [escape_each]. by rewrite occurs_app, IH, escape_char_markup_free.
  - intros H1 H2 H3 H4 H5. unfold escapeHtml. cbn [or_empty].
    rewrite !replace_all_chr.
    by rewrite (subst_char_absent "&" _ s H1), (subst_char_absent "<" _ s H2),
      (subst_char_absent ">" _ s H3), (subst_char_absent _ _ s H4),
      (subst_char_absent "'" _ s H5).
Qed.

(** ** Decoding *)

Lemma to_standard_char_subst a :
  subst_char "_" "/" (subst_char "-" "+" (String a EmptyString)) =
  String (to_standard_char a) EmptyString.
Proof. destruct a as [[] [] [] [] [] [] [] []]; vm_compute; reflexivity. Qed.

Lemma to_standard_subst s :
  subst_char "_" "/" (subst_char "-" "+" s) = to_standard s.
Proof.
  induction s as [|a t IH]; [done|].
  cbn [to_standard]. rewrite <- IH.
  change (String (to_standard_char a) ?x)
    with (String (to_standard_char a) EmptyString +:+ x).
  rewrite <- to_standard_char_subst, <- !subst_char_app. reflexivity.
Qed.

Lemma to_standard_char_idem a :
  to_standard_char (to_standard_char a) = to_standard_char a.
Proof. destruct a as [[] [] [] [] [] [] [] []]; vm_compute; reflexivity. Qed.

Lemma to_standard_idem s : to_standard (to_standard s) = to_standard s.
Proof.
  induction s as [|a t IH]; [done|]. cbn [to_standard].
  by rewrite IH, to_standard_char_idem.
Qed.

(** X17.  [decodeBase64UrlToUtf8] reads both base64 alphabets: what it hands
    to the platform decoder is the data with every - turned into + and every
    _ into /, so data spelled in the standard alphabet decodes like its
    URL-safe spelling.  It never throws: empty data and data the platform
    decoder refuses both give the empty string. *)
Theorem decodeBase64UrlToUtf8_reads_both_alphabets (d : string) :
  decodeBase64UrlToUtf8 d =
    (if truthy_str d then default "" (Buffer_base64_utf8 (to_standard d)) else "") ∧
  decodeBase64UrlToUtf8 (to_standard d) = decodeBase64UrlToUtf8 d.
Proof.
  assert (Hdec : ∀ s, decodeBase64UrlToUtf8 s =
            if truthy_str s then default "" (Buffer_base64_utf8 (to_standard s)) else "").
  { intros s. unfold decodeBase64UrlToUtf8.
    rewrite !replace_all_chr, to_standard_subst.
    destruct s as [|a t]; [done|]. cbn [truthy_str].
    by destruct (Buffer_base64_utf8 _). }
  split; [apply Hdec|]. rewrite !Hdec, to_standard_idem.
  by destruct d.
Qed.

(** ** Extraction *)

(** X18.  The two bodies are extracted independently, each as the first
    non-empty decoding in depth-first order: the text among the root's inline
    data of a foreign media type followed by the plain-text parts, the html
    among the HTML parts; parts whose data decodes to the empty string are
    passed over, and both results are trimmed.  Without a payload both bodies
    are empty. *)
Theorem extraction_takes_the_first_nonempty_decoding (p : Gmail.MessagePart) :
  text (extractEmailBodies (Some p)) =
    trim (first_truthy (provisional_text p ++
                        (decodeBase64UrlToUtf8 <$> inline_parts "text/plain" p))) ∧
  html (extractEmailBodies (Some p)) =
    trim (first_truthy (decodeBase64UrlToUtf8 <$> inline_parts "text/html" p)) ∧
  extractEmailBodies None = {| text := ""; html := "" |}.
Proof. split; [apply extract_text|]. split; [apply extract_html | reflexivity]. Qed.

(** X19.  A message without any inline plain-text or HTML data, such as one
    that consists of attachments only, is forwarded with the body
    "(no text found)" and without textBody and htmlBody. *)
Theorem message_without_text_forwards_the_sentinel (p : Gmail.MessagePart) :
  foreign_top_level_data p = false →
  inline_parts "text/plain" p = [] →
  inline_parts "text/html" p = [] →
  let emailData := make_emailData p (extractEmailBodies (Some p)) in
  body emailData = "(no text found)" ∧
  textBody emailData = None ∧
  htmlBody emailData = None.
Proof.
  intros Hroot Hplain Hhtml emailData. subst emailData.
  cbn [body textBody htmlBody make_emailData]. unfold body_of.
  rewrite extract_text, extract_html, Hplain, Hhtml.
  unfold provisional_text. rewrite Hroot. done.
Qed.

(** X20.  For every message the forwarder builds, the prompt sent to the
    agent carries the body field of that message: the preference for textBody
    never changes it, because textBody, when present, is the body. *)
Theorem prompt_carries_the_forwarded_body (p : Gmail.MessagePart) (b : Bodies) :
  let emailData := make_emailData p b in
  buildEmailPrompt emailData =
  trim ("From: " +:+ or_empty (from emailData) +:+ newline +:+
        "To: " +:+ or_empty (to emailData) +:+ newline +:+
        "Subject: " +:+ or_empty (subject emailData) +:+ newline +:+ newline +:+
        body emailData).
Proof.
  cbv zeta. unfold buildEmailPrompt. do 8 f_equal.
  cbn [textBody body make_emailData]. unfold or_undefined, body_of.
  by destruct (truthy_str (text b)) eqn:Ht; simpl; rewrite ?Ht.
Qed.

(** ** The watch route *)


(** X22.  When the watch call resolves, the route replies 200 with the watch
    data, also when saving fails, and it always rewrites the state file: with
    the watch's historyId as the new cursor when that is truthy, whatever the
    cursor was before, and with every other key of the record kept. *)
Theorem watch_start_sets_the_cursor (GMAIL_TOPIC : option string)
    (resp : WatchResponse) (env : Env) (w : World) (k : string) :
  truthy_opt truthy_str GMAIL_TOPIC = true →
  k ≠ "historyId" →
  ∃ w', watch_start true GMAIL_TOPIC (inr resp) env w = (inr (SendJson 200 resp), w') ∧
    stored_state (store w') !! k = stored_state (store w) !! k ∧
    (writeFileSync env = None → ∃ o, store w' = FileRecord o) ∧
    (∀ v, watch_historyId resp = Some v → truthy v = true →
          writeFileSync env = None → cursor w' = Some v) ∧
    (truthy_opt truthy (watch_historyId resp) = false → cursor w' = cursor w).
Proof.
  intros Htopic Hk. unfold watch_start. cbn [negb]. rewrite Htopic. cbn [negb].
  unfold try_catch.
  rewrite (bind_inr (liftE _) _ w resp w eq_refl).
  rewrite (bind_inr loadState _ _ _ _ (loadState_spec _)).
  erewrite bind_inr; [|apply saveState_spec].
  eexists. split; [reflexivity|]. unfold cursor. simpl.
  destruct (writeFileSync env) as [e|]; simpl.
  { split; [done|]. split; [done|]. split; [done|]. done. }
  split.
  { destruct (watch_historyId resp) as [v|]; [|done].
    destruct (truthy v); [|done]. by rewrite lookup_insert_ne. }
  split; [by eexists|]. split.
  - intros v -> -> _. by rewrite lookup_insert_eq.
  - intros Hf. destruct (watch_historyId resp) as [v|]; [|done].
    simpl in Hf. by rewrite Hf.
Qed.

(** ** The manual fetch *)





(** ** Text without markup *)

Lemma char_eqb_ci_lt a : char_eqb_ci "<" a = Ascii.eqb "<" a.
Proof. by destruct a as [[] [] [] [] [] [] [] []]. Qed.

Lemma char_eqb_ci_amp a : char_eqb_ci "&" a = Ascii.eqb "&" a.
Proof. by destruct a as [[] [] [] [] [] [] [] []]. Qed.

(* A pattern that cannot start at any character of the string replaces nothing *)
Lemma replace_all_no_start r c by_ s :
  (∀ a t, Ascii.eqb c a = false → match_prefix r (String a t) = None) →
  occurs c s = false →
  replace_all r by_ s = s.
Proof.
  intros Hr. unfold replace_all. induction s as [|a t IH]; [done|].
  cbn [occurs replace_from]. intros [Ha Ht]%orb_false_elim.
  by rewrite (Hr a t Ha), (IH Ht).
Qed.

Local Ltac no_start lemma :=
  intros a t Ha; unfold match_prefix; cbn [run lit_ci chr_ci chr];
  rewrite ?lemma, Ha; reflexivity.

Lemma markup_patterns_start_with_lt r :
  r = re_style ∨ r = re_script ∨ r = re_br_before_tag ∨ r = re_br_no_newline ∨
  r = re_block_close ∨ r = re_li ∨ r = re_tag →
  ∀ a t, Ascii.eqb "<" a = false → match_prefix r (String a t) = None.
Proof.
  intros [->|[->|[->|[->|[->|[->| ->]]]]]].
  - unfold re_style. no_start char_eqb_ci_lt.
  - unfold re_script. no_start char_eqb_ci_lt.
  - unfold re_br_before_tag, re_br. no_start char_eqb_ci_lt.
  - unfold re_br_no_newline, re_br. no_start char_eqb_ci_lt.
  - unfold re_block_close. no_start char_eqb_ci_lt.
  - unfold re_li. no_start char_eqb_ci_lt.
  - unfold re_tag. no_start char_eqb_ci_lt.
Qed.

Lemma entity_patterns_start_with_amp e :
  e = "&nbsp;" ∨ e = "&amp;" ∨ e = "&lt;" ∨ e = "&gt;" ∨ e = "&#39;" ∨ e = "&quot;" →
  ∀ a t, Ascii.eqb "&" a = false → match_prefix (lit_ci e) (String a t) = None.
Proof.
  intros [->|[->|[->|[->|[->| ->]]]]]; no_start char_eqb_ci_amp.
Qed.

(** X25.  Text that contains neither < nor & passes [stripHtml] with nothing
    but its white space changed: no tag and no entity pattern can match, so
    the result is the white-space normalisation of the text, trimmed.  On
    such text the dashboard's [stripHtmlClient] gives the same result. *)
Theorem stripHtml_only_normalises_space_of_plain_text (s : string) :
  occurs "<" s = false →
  occurs "&" s = false →
  stripHtml s = trim (normalise_space s) ∧
  stripHtmlClient (Some s) = stripHtml s.
Proof using Type.
  clear Buffer_base64_utf8 encodeURIComponent. intros Hlt Hamp.
  assert (Htag : ∀ r by_,
            r = re_style ∨ r = re_script ∨ r = re_br_before_tag ∨
            r = re_br_no_newline ∨ r = re_block_close ∨ r = re_li ∨ r = re_tag →
            replace_all r by_ s = s).
  { intros r by_ Hr. apply (replace_all_no_start r "<"); [|done].
    by apply markup_patterns_start_with_lt. }
  assert (Hent : ∀ e by_,
            e = "&nbsp;" ∨ e = "&amp;" ∨ e = "&lt;" ∨ e = "&gt;" ∨ e = "&#39;" ∨
            e = "&quot;" →
            replace_all (lit_ci e) by_ s = s).
  { intros e by_ He. apply (replace_all_no_start _ "&"); [|done].
    by apply entity_patterns_start_with_amp. }
  assert (Hclient : stripHtmlClient (Some s) = trim (normalise_space s)).
  { unfold stripHtmlClient. cbn [or_empty]. cbv zeta.
    rewrite (Htag re_style) by tauto. rewrite (Htag re_script) by tauto.
    rewrite (Htag re_br_before_tag) by tauto. rewrite (Htag re_br_no_newline) by tauto.
    rewrite (Htag re_block_close) by tauto. rewrite (Htag re_li) by tauto.
    rewrite (Htag re_tag) by tauto. reflexivity. }
  assert (Hserver : stripHtml s = trim (normalise_space s)).
  { destruct s as [|a t] eqn:Hs; [reflexivity|]. rewrite <- Hs in *.
    unfold stripHtml. rewrite Hs at 1. cbv zeta.
    rewrite (Htag re_style) by tauto. rewrite (Htag re_script) by tauto.
    rewrite (Htag re_br_before_tag) by tauto. rewrite (Htag re_br_no_newline) by tauto.
    rewrite (Htag re_block_close) by tauto. rewrite (Htag re_li) by tauto.
    rewrite (Htag re_tag) by tauto.
    rewrite (Hent "&nbsp;") by tauto. rewrite (Hent "&amp;") by tauto.
    rewrite (Hent "&lt;") by tauto. rewrite (Hent "&gt;") by tauto.
    rewrite (Hent "&#39;") by tauto. rewrite (Hent "&quot;") by tauto.
    reflexivity. }
  split; [exact Hserver | by rewrite Hclient, Hserver].
Qed.

End Bridge.

(** * The claims on worked inputs *)

Local Ltac evaluate := vm_compute; reflexivity.
Local Ltac listed := apply list_elem_of_In; vm_compute; tauto.

(** ** Fixtures *)

Example stripHtml_paragraph : stripHtml "<p>Hi</p>" = "Hi".
Proof. evaluate. Qed.

Example stripHtml_entities :
  stripHtml "<div>Tom &amp; Jerry &LT;3&nbsp;</div>" = "Tom & Jerry <3".
Proof. evaluate. Qed.

Example stripHtml_style_and_script :
  stripHtml "<style>p { }</style>a<SCRIPT>x()</script>b" = "ab".
Proof. evaluate. Qed.

Example stripHtml_breaks :
  stripHtml "one<br>two<br/><b>three</b>" = "one" +:+ newline +:+ "two three".
Proof. evaluate. Qed.

Example trim_no_break_space :
  trim (String (byte_of 194) (String (byte_of 160) " x ")) = "x".
Proof. evaluate. Qed.

Example base64_decode_hi : base64_decode "PHA+SGk8L3A+" = Some "<p>Hi</p>".
Proof. evaluate. Qed.

Example push_without_hint_is_discarded :
  gmail_push base64_decode unreserved healthy two_pages (Notification None) at_5
  = (inr tt, {| store := store at_5; trace := [Respond 204] |}).
Proof. evaluate. Qed.

Example push_undecodable_is_logged :
  gmail_push base64_decode unreserved healthy two_pages
    (Undecodable {| status := None; message := "Unexpected token" |}) at_5
  = (inr tt, {| store := store at_5;
                trace := [Respond 204;
                          Console Error "/gmail/push handler error:" "Unexpected token"] |}).
Proof. evaluate. Qed.

(** ** Claims *)

(** C1 (the code at the failing input).  With the legacy webhook answering
    500 and the agent API up, [forwardMessageById] rejects with the webhook's
    error after the broadcast and the webhook post, and the agent relay is
    never called; with the webhook healthy the same message reaches the
    agent.  The sink failure is not isolated. *)
Theorem legacy_webhook_failure_escapes_forward :
  let r := forwardMessageById base64_decode unreserved legacy_down "m1" at_10 in
  r.1 = inl server_error ∧
  events_since at_10 r.2 =
    [ MessagesGet "m1";
      SseFrame 1 "email" "push" "m1" hello_email;
      AxiosPost legacy_url (PostEmail hello_email) ] ∧
  ∃ w', forwardMessageById base64_decode unreserved healthy "m1" at_10
          = (inr hello_email, w') ∧
        AxiosPost agent_query_url
          (PostQuery (buildEmailPrompt hello_email) false) ∈ trace w'.
Proof.
  cbv zeta. split; [evaluate|]. split; [evaluate|].
  eexists. split; [evaluate|]. listed.
Qed.

Lemma cursor_store_never_throws_witness :
  loadState corrupt = (inr ∅, corrupt) ∧
  saveState disk_full ∅ corrupt =
    (inr tt, {| store := store corrupt;
                trace := trace corrupt ++
                         [Console Error "Failed to save state:" "ENOSPC"] |}).
Proof.
  destruct (cursor_store_never_throws disk_full ∅ corrupt) as (Hload & _ & _ & Hsave).
  split.
  - apply Hload. right; right. by eexists.
  - exact (Hsave _ eq_refl).
Defined.

Lemma cursor_update_keeps_other_keys_witness :
  "emailAddress" ≠ "historyId" ∧
  let w' := (processHistorySince base64_decode unreserved healthy two_pages
               (Some (JStr "10")) at_10).2 in
  stored_state (store w') !! "emailAddress" = Some (JStr "bob@example.com") ∧
  stored_state (store w') !! "historyId" = Some (JStr "13").
Proof.
  assert (Hk : "emailAddress" ≠ "historyId") by discriminate.
  split; [exact Hk|]. cbv zeta.
  destruct (cursor_update_keeps_other_keys base64_decode unreserved healthy
              two_pages (Some (JStr "10")) at_10 "emailAddress" Hk) as [Hframe Hcur].
  split.
  - rewrite Hframe. reflexivity.
  - apply Hcur; reflexivity.
Defined.

Lemma cursor_persisted_whatever_forwards_do_witness :
  resolves two_pages = true ∧
  ∃ w', processHistorySince base64_decode unreserved healthy two_pages
          (Some (JStr "10")) at_10
        = (inr {| count := 2; latestHistoryId := Some (JStr "13") |}, w') ∧
        forward_calls (events_since at_10 w') = ["m1"; "m2"] ∧
        Console Error "Forward failed for" "m2 404" ∈ trace w' ∧
        store w' = FileRecord (<["historyId" := JStr "13"]> (stored_state (store at_10))).
Proof.
  split; [reflexivity|].
  destruct (cursor_persisted_whatever_forwards_do base64_decode unreserved healthy
              two_pages (Some (JStr "10")) at_10 eq_refl) as (w' & E & Hcalls & Hstore).
  exists w'. split; [exact E|]. split; [exact Hcalls|]. split.
  - replace w' with (processHistorySince base64_decode unreserved healthy two_pages
                       (Some (JStr "10")) at_10).2 by (by rewrite E).
    listed.
  - exact (Hstore (JStr "13") eq_refl eq_refl).
Defined.

Lemma each_message_forwarded_once_witness :
  resolves two_pages = true ∧
  mentions (records (pages_read two_pages)) = ["m1"; "m2"; "m1"; "m1"] ∧
  count_occ String.string_dec
    (forward_calls
       (events_since at_10
          (processHistorySince base64_decode unreserved healthy two_pages
             (Some (JStr "10")) at_10).2)) "m1" = 1%nat.
Proof.
  split; [reflexivity|]. split; [reflexivity|].
  apply (each_message_forwarded_once base64_decode unreserved healthy two_pages
           (Some (JStr "10")) at_10 "m1"); [reflexivity | listed].
Defined.

(** C4, refuted as stated: with the events 7 and 3 in this order the pass
    returns and persists 3, which is not the highest identifier of the log. *)
Lemma latest_position_not_highest :
  let r := processHistorySince base64_decode unreserved healthy out_of_order
             (Some (JStr "1")) at_5 in
  event_ids (records (pages_read out_of_order)) = ["7"; "3"] ∧
  r.1 = inr {| count := 0; latestHistoryId := Some (JStr "3") |} ∧
  cursor r.2 = Some (JStr "3") ∧
  position_leb (JStr "7") (JStr "3") = false.
Proof. cbv zeta. repeat split; evaluate. Qed.

Lemma latest_position_is_last_event_witness :
  resolves two_pages = true ∧
  nondecreasing (event_ids (records (pages_read two_pages))) = true ∧
  ∃ w' n, processHistorySince base64_decode unreserved healthy two_pages
            (Some (JStr "10")) at_10
          = (inr {| count := n; latestHistoryId := Some (JStr "13") |}, w') ∧
          cursor w' = Some (JStr "13") ∧
          ∃ l, Some (JStr "13") = Some (JStr l) ∧
               position_leb (JStr "11") (JStr l) = true.
Proof.
  split; [reflexivity|]. split; [reflexivity|].
  destruct (latest_position_is_last_event base64_decode unreserved healthy two_pages
              (Some (JStr "10")) at_10 eq_refl) as (w' & n & E & _ & _ & Hhigh & Hcur).
  exists w', n. split; [exact E|]. split.
  - exact (Hcur (JStr "13") eq_refl eq_refl eq_refl).
  - destruct (Hhigh eq_refl "11") as (l & _ & Hl & Hle); [listed|].
    exists l. split; [exact Hl | exact Hle].
Defined.

(** C3, refuted as stated: a pass started from the persisted cursor 10 whose
    change log answers with the event 3 persists 3. *)
Lemma cursor_decreases_on_stale_event :
  cursor_history base64_decode unreserved at_10 [from_10 healthy stale]
    = [Some (JStr "10"); Some (JStr "3")] ∧
  ¬ cursor_le (Some (JStr "10")) (Some (JStr "3")).
Proof.
  split; [evaluate|].
  intros [H | [H | (x & y & [= <-] & [= <-] & H)]]; discriminate.
Qed.

Lemma cursor_never_decreases_in_order_witness :
  let ps := [from_10 healthy two_pages;
             {| pass_env := disk_full; pass_remote := nothing_new;
                pass_start := Some (JStr "13") |}] in
  in_order_run base64_decode unreserved at_10 ps ∧
  cursor_history base64_decode unreserved at_10 ps
    = [Some (JStr "10"); Some (JStr "13"); Some (JStr "13")] ∧
  cursor_le (Some (JStr "10")) (Some (JStr "13")).
Proof.
  cbv zeta.
  assert (Hrun : in_order_run base64_decode unreserved at_10
                   [from_10 healthy two_pages;
                    {| pass_env := disk_full; pass_remote := nothing_new;
                       pass_start := Some (JStr "13") |}]).
  { split; [|split; [|exact I]].
    - split; [by left|]. repeat constructor; by eexists.
    - split; [left; evaluate | by constructor]. }
  split; [exact Hrun|]. split; [evaluate|].
  apply (cursor_never_decreases_in_order base64_decode unreserved at_10 _ 0 2 _ _ Hrun);
    [lia | evaluate | evaluate].
Defined.

(** C2, refuted as stated: with the cursor 5 persisted and the hint 10 the
    route calls the change log from 5, which is below the hint. *)
Lemma push_start_below_hint :
  truthy (JStr "10") = true ∧
  trace (gmail_push base64_decode unreserved healthy nothing_new
           (Notification (Some (JStr "10"))) at_5).2
    = [Respond 204; HistoryList "5" None] ∧
  position_leb (JStr "10") (JStr "5") = false.
Proof. repeat split; evaluate. Qed.

Lemma push_starts_from_persisted_cursor_witness :
  truthy (JStr "10") = true ∧
  (∃ rest, trace (gmail_push base64_decode unreserved healthy nothing_new
                    (Notification (Some (JStr "10"))) at_5).2
           = trace at_5 ++ Respond 204 :: HistoryList "5" None :: rest) ∧
  (∃ rest, trace (gmail_notify base64_decode unreserved healthy nothing_new
                    (Notification (Some (JStr "10"))) corrupt).2
           = trace corrupt ++ Respond 204 :: HistoryList "10" None :: rest).
Proof.
  split; [reflexivity|]. split.
  - exact (proj1 (push_starts_from_persisted_cursor base64_decode unreserved healthy
                    nothing_new (JStr "10") at_5 eq_refl)).
  - exact (proj2 (push_starts_from_persisted_cursor base64_decode unreserved healthy
                    nothing_new (JStr "10") corrupt eq_refl)).
Defined.

(** C7, refuted as stated: the container carries inline data of its own, and
    the extractor returns it ("R") instead of the first plain-text part ("A"). *)
Lemma container_data_overrides_first_part :
  inline_parts "text/plain" container_with_data = ["QQ=="; "Qg=="] ∧
  decodeBase64UrlToUtf8 base64_decode "QQ==" = "A" ∧
  text (extractEmailBodies base64_decode (Some container_with_data)) = "R".
Proof. repeat split; evaluate. Qed.

(* A first plain-text part that decodes to nothing is passed over *)
Example empty_first_part_is_passed_over :
  inline_parts "text/plain" empty_first = ["===="; "Qg=="] ∧
  decodeBase64UrlToUtf8 base64_decode "====" = "" ∧
  text (extractEmailBodies base64_decode (Some empty_first)) = "B".
Proof. repeat split; evaluate. Qed.

Lemma first_part_in_depth_first_order_wins_witness :
  foreign_top_level_data alternative = false ∧
  inline_parts "text/plain" alternative = ["IEEg"; "Qg=="] ∧
  inline_parts "text/html" alternative = ["PGI-SGk8L2I-"] ∧
  decodeBase64UrlToUtf8 base64_decode "IEEg" = " A " ∧
  text (extractEmailBodies base64_decode (Some alternative)) = "A" ∧
  html (extractEmailBodies base64_decode (Some alternative)) = "<b>Hi</b>".
Proof.
  split; [reflexivity|]. split; [reflexivity|]. split; [reflexivity|].
  split; [evaluate|].
  destruct (first_part_in_depth_first_order_wins base64_decode alternative eq_refl)
    as [Htext Hhtml].
  split.
  - rewrite (Htext "IEEg" ["Qg=="] eq_refl); [evaluate|].
    vm_compute. discriminate.
  - rewrite (Hhtml "PGI-SGk8L2I-" [] eq_refl); [evaluate|].
    vm_compute. discriminate.
Defined.

Lemma forwarded_body_is_text_else_stripped_html_witness :
  let ev := SseFrame 1 "email" "push" "m3" hi_email in
  ev ∈ events_since at_10
         (forwardMessageById base64_decode unreserved healthy "m3" at_10).2 ∧
  base64_decode "PHA+SGk8L3A+" = Some "<p>Hi</p>" ∧
  extractEmailBodies base64_decode (Gmail.payload hi_html)
    = {| text := ""; html := "<p>Hi</p>" |} ∧
  body hi_email = "Hi".
Proof.
  cbv zeta.
  assert (Hin : SseFrame 1 "email" "push" "m3" hi_email
                ∈ events_since at_10
                    (forwardMessageById base64_decode unreserved healthy "m3" at_10).2)
    by listed.
  split; [exact Hin|]. split; [evaluate|].
  destruct (forwarded_body_is_text_else_stripped_html base64_decode unreserved
              healthy "m3" at_10 _ hi_email Hin eq_refl) as (msg & Hmsg & _ & Hhi).
  injection Hmsg as <-.
  destruct (Hhi None eq_refl) as (Ht & Hh & Hb); [evaluate|].
  split; [|exact Hb].
  destruct (extractEmailBodies base64_decode (Gmail.payload hi_html)) as [t h].
  simpl in Ht, Hh. by rewrite Ht, Hh.
Defined.

(** * More of the code on worked inputs *)

Lemma session_creation_is_never_fatal_witness :
  events_since at_10 (ensureContainerSession session_exists at_10).2 =
  [ AxiosPost agent_create_url (PostSession "intern-0a1b2c3d");
    Console Log "Container session exists:" "intern-0a1b2c3d" ].
Proof.
  destruct (session_creation_is_never_fatal session_exists at_10) as (w' & E & _ & H).
  rewrite E. exact (H agent_url conflict eq_refl eq_refl eq_refl).
Defined.

Lemma agent_relay_never_throws_and_always_queries_witness :
  ∃ w', postEmailToContainerAPI unreserved agent_down hello_email at_10 = (inr tt, w') ∧
        AxiosPost agent_query_url (PostQuery (buildEmailPrompt hello_email) false)
          ∈ events_since at_10 w' ∧
        Console Warn "Container session create failed:" "503" ∈ events_since at_10 w'.
Proof.
  destruct (agent_relay_never_throws_and_always_queries unreserved agent_down
              hello_email at_10) as (w' & E & _ & _ & Hq).
  exists w'. split; [exact E|]. split.
  - exact (Hq agent_url eq_refl eq_refl).
  - replace w' with (postEmailToContainerAPI unreserved agent_down hello_email at_10).2
      by (by rewrite E).
    listed.
Defined.

Lemma forward_throws_only_for_fetch_payload_or_webhook_witness :
  ∃ w', forwardMessageById base64_decode unreserved legacy_down "m1" at_10
          = (inl server_error, w') ∧
        truthy_opt truthy_str (NGROK_ENDPOINT legacy_down) = true ∧
        axios_post legacy_down legacy_url (PostEmail hello_email) = Some server_error.
Proof.
  eexists. split; [evaluate|].
  destruct (forward_throws_only_for_fetch_payload_or_webhook base64_decode unreserved
              legacy_down "m1" at_10 _ server_error ltac:(evaluate))
    as [H | [(msg & H & _) | (msg & p & _ & _ & Ht & _)]].
  - discriminate H.
  - injection H as <-. split; reflexivity.
  - split; [exact Ht | reflexivity].
Defined.

Lemma unfetchable_message_reaches_no_sink_witness :
  messages_get healthy "m2" = inl not_found ∧
  forwardMessageById base64_decode unreserved healthy "m2" at_10 =
  (inl not_found, {| store := store at_10; trace := [MessagesGet "m2"] |}).
Proof.
  split; [reflexivity|].
  exact (unfetchable_message_reaches_no_sink base64_decode unreserved healthy "m2"
           at_10 not_found eq_refl).
Defined.

Lemma fan_out_serves_the_sinks_in_order_witness :
  ∃ w', forwardMessageById base64_decode unreserved agent_down "m1" at_10
          = (inr hello_email, w') ∧
        events_since at_10 w' =
        [ MessagesGet "m1";
          SseFrame 2 "email" "push" "m1" hello_email;
          AxiosPost legacy_url (PostEmail hello_email);
          AxiosPost agent_create_url (PostSession "intern-0a1b2c3d");
          Console Warn "Container session create failed:" "503";
          AxiosPost agent_query_url (PostQuery (buildEmailPrompt hello_email) false);
          Console Warn "Container query failed:" "503" ].
Proof.
  destruct (fan_out_serves_the_sinks_in_order base64_decode unreserved agent_down "m1"
              at_10 hello _ eq_refl eq_refl ltac:(evaluate)) as (w' & E & _ & Hev).
  exists w'. split; [rewrite E; evaluate|]. rewrite Hev. evaluate.
Defined.

Lemma pass_aborts_when_listing_fails_witness :
  list_error second_page_fails = Some server_error ∧
  ∃ calls,
    processHistorySince base64_decode unreserved healthy second_page_fails
      (Some (JStr "10")) at_10 =
    (inl server_error, {| store := store at_10; trace := trace at_10 ++ calls |}) ∧
    Forall is_HistoryList calls.
Proof.
  split; [reflexivity|].
  exact (pass_aborts_when_listing_fails base64_decode unreserved healthy
           second_page_fails (Some (JStr "10")) at_10 server_error eq_refl).
Defined.


Lemma pass_without_news_changes_nothing_witness :
  ∃ w', processHistorySince base64_decode unreserved disk_full nothing_new
          (Some (JStr "10")) at_10
        = (inr {| count := 0; latestHistoryId := Some (JStr "10") |}, w') ∧
        store w' = store at_10.
Proof.
  destruct (pass_without_news_changes_nothing base64_decode unreserved disk_full
              nothing_new _ (JStr "10") at_10 eq_refl eq_refl eq_refl eq_refl
              eq_refl eq_refl) as (w' & E & Hs & _).
  exists w'. split; [exact E | exact Hs].
Defined.

Lemma persisted_cursor_stays_truthy_witness :
  truthy_opt truthy (cursor at_10) = true ∧
  truthy_opt truthy
    (cursor (processHistorySince base64_decode unreserved healthy stale
               (Some (JStr "10")) at_10).2) = true.
Proof.
  split; [reflexivity|].
  exact (persisted_cursor_stays_truthy base64_decode unreserved healthy stale
           (Some (JStr "10")) at_10 eq_refl).
Defined.

Lemma unreadable_state_is_replaced_by_a_fresh_record_witness :
  store (processHistorySince base64_decode unreserved healthy two_pages
           (Some (JStr "10")) corrupt).2 = FileRecord {[ "historyId" := JStr "13" ]}.
Proof.
  apply (unreadable_state_is_replaced_by_a_fresh_record base64_decode unreserved
           healthy two_pages (Some (JStr "10")) corrupt (JStr "13"));
    [intros o; discriminate | reflexivity | reflexivity | reflexivity | reflexivity].
Defined.

Lemma push_without_truthy_hint_does_nothing_witness :
  truthy (JNum 0) = false ∧
  gmail_push base64_decode unreserved healthy two_pages
    (Notification (Some (JNum 0))) at_10 =
  (inr tt, {| store := store at_10; trace := [Respond 204] |}).
Proof.
  split; [reflexivity|].
  apply (push_without_truthy_hint_does_nothing base64_decode unreserved healthy two_pages
           (Notification (Some (JNum 0))) at_10).
  right; right. by exists (JNum 0).
Defined.

Lemma push_with_failed_listing_keeps_the_cursor_witness :
  ∃ w', gmail_push base64_decode unreserved healthy second_page_fails
          (Notification (Some (JStr "99"))) at_10 = (inr tt, w') ∧
        store w' = store at_10 ∧
        last (trace w') =
        Some (Console Error "/gmail/push handler error:"
                "Request failed with status code 500").
Proof.
  destruct (push_with_failed_listing_keeps_the_cursor base64_decode unreserved healthy
              second_page_fails (JStr "99") at_10 server_error eq_refl eq_refl)
    as (w' & E & Hs & _ & Hl).
  exists w'. split; [exact E|]. split; [exact Hs | exact Hl].
Defined.

Lemma escapeHtml_escapes_each_character_once_witness :
  escapeHtml (Some "a < b & c") = "a &lt; b &amp; c" ∧
  occurs "<" (escapeHtml (Some "<script>alert('x')</script>")) = false ∧
  escapeHtml (Some "plain text") = "plain text".
Proof.
  split; [evaluate|]. split.
  - apply (escapeHtml_escapes_each_character_once "<script>alert('x')</script>").
    by left.
  - apply (escapeHtml_escapes_each_character_once "plain text"); reflexivity.
Defined.

Lemma message_without_text_forwards_the_sentinel_witness :
  foreign_top_level_data attachment_only = false ∧
  body (make_emailData attachment_only
          (extractEmailBodies base64_decode (Some attachment_only)))
    = "(no text found)".
Proof.
  split; [reflexivity|].
  apply (message_without_text_forwards_the_sentinel base64_decode attachment_only);
    reflexivity.
Defined.


Lemma watch_start_sets_the_cursor_witness :
  "emailAddress" ≠ "historyId" ∧
  ∃ w', watch_start true (Some "projects/p/topics/t") (inr watch_42) healthy at_10
          = (inr (SendJson 200 watch_42), w') ∧
        cursor w' = Some (JStr "42") ∧
        stored_state (store w') !! "emailAddress" = Some (JStr "bob@example.com").
Proof.
  assert (Hk : "emailAddress" ≠ "historyId") by discriminate.
  split; [exact Hk|].
  destruct (watch_start_sets_the_cursor (Some "projects/p/topics/t") watch_42 healthy
              at_10 "emailAddress" eq_refl Hk) as (w' & E & Hframe & _ & Hcur & _).
  exists w'. split; [exact E|]. split.
  - exact (Hcur (JStr "42") eq_refl eq_refl eq_refl).
  - rewrite Hframe. reflexivity.
Defined.



Lemma stripHtml_only_normalises_space_of_plain_text_witness :
  occurs "<" "  3 > 2,   said  Bob " = false ∧
  stripHtml "  3 > 2,   said  Bob " = "3 > 2, said Bob" ∧
  stripHtmlClient (Some "  3 > 2,   said  Bob ") = "3 > 2, said Bob".
Proof.
  split; [reflexivity|].
  destruct (stripHtml_only_normalises_space_of_plain_text "  3 > 2,   said  Bob "
              eq_refl eq_refl) as [Hs Hc].
  split; [rewrite Hs; evaluate | rewrite Hc, Hs; evaluate].
Defined.
